(** * MinutesGenerator: OAuth-backed file acquisition and the staged pipeline

    A shallow embedding of [google_drive_service.py] (class
    [GoogleDriveService]) and [audio_processor.py] (class [AudioProcessor]),
    with [validate_config] of [config.py] and the wrappers of
    [ui_components.py] that call them, followed by the properties of the
    OAuth state machine, of the Drive browser and downloader and of the
    progress-reporting pipeline.

    External collaborators (the file system, pickle, the Google client
    libraries, the OpenAI client, the callbacks handed in by the UI) are
    records of oracles: every theorem quantifies over all of them. *)

From stdpp Require Import gmap strings list fin_maps.
From Stdlib Require Import Ascii DecimalString.

(** ** Python values shared by both modules *)

Module Py.

(** The outcome of a call that may raise; [Raise msg] carries [str(e)]. *)
Inductive result (A : Type) : Type :=
| Ok (a : A)
| Raise (msg : string).
Global Arguments Ok {A} a.
Global Arguments Raise {A} msg.

(** [if x:] on an [Optional[str]]: [None] and the empty string are falsy.
    A truthy value is handed on as the string it is. *)
Definition truthy (x : option string) : option string :=
  match x with
  | Some EmptyString => None
  | Some s => Some s
  | None => None
  end.

(** The newline character of the f-strings. *)
Definition LF : string := String (Ascii.ascii_of_nat 10) EmptyString.

(** [str(n)] / [f"{n}"] for a non-negative int. *)
Definition str_of_nat (n : nat) : string :=
  NilZero.string_of_uint (Nat.to_uint n).

(** [sep.join(parts)]. *)
Fixpoint join (sep : string) (parts : list string) : string :=
  match parts with
  | [] => EmptyString
  | [p] => p
  | p :: rest => p +:+ sep +:+ join sep rest
  end.

(** [sub in s] on strings. *)
Fixpoint contains (sub s : string) : bool :=
  String.prefix sub s
  || match s with
     | EmptyString => false
     | String _ rest => contains sub rest
     end.

(** [s[n:]]. *)
Fixpoint drop_chars (n : nat) (s : string) : string :=
  match n, s with
  | S n, String _ rest => drop_chars n rest
  | _, _ => s
  end.

(** [s.split(sep)[0]] for a non-empty [sep]: what stands before the first
    [sep], all of [s] when there is none. *)
Fixpoint split_0 (sep s : string) : string :=
  if String.prefix sep s then EmptyString
  else match s with
       | EmptyString => EmptyString
       | String c rest => String c (split_0 sep rest)
       end.

(** What follows the first [sep] in [s]; [None] when there is none. *)
Fixpoint after_first (sep s : string) : option string :=
  if String.prefix sep s then Some (drop_chars (String.length sep) s)
  else match s with
       | EmptyString => None
       | String _ rest => after_first sep rest
       end.

(** [s.split(sep)[1]] for a non-empty [sep]: what stands between the first
    [sep] and the next one; [None] is the [IndexError] raised when [sep]
    does not occur. *)
Definition split_1 (sep s : string) : option string :=
  split_0 sep <$> after_first sep s.

End Py.
Import Py.

(** ** audio_processor.py *)

Module AudioProcessor.

(** What a run does that the outside can observe: the pairs it yields and
    the calls it makes, in order. *)
Inductive event : Type :=
| Yield (status_text minutes_text : string)
| Download (file_id : string)
| GetSize (path : string)
| Progress (value desc : string)
| OpenRb (path : string)
| Transcribe (model path response_format : string)
| ChatCompletion (model : string) (messages : list (string * string))
                 (max_tokens : nat) (temperature : string).

(** How a piece of generator code ends: it falls through with a value,
    raises, or executes [return]. *)
Inductive control (A : Type) : Type :=
| Normal (a : A)
| Raised (msg : string)
| Returned.
Global Arguments Normal {A} a.
Global Arguments Raised {A} msg.
Global Arguments Returned {A}.

Record gen (A : Type) : Type := Gen { trace : list event; ctl : control A }.
Global Arguments Gen {A} trace ctl.
Global Arguments trace {A} g.
Global Arguments ctl {A} g.

Global Instance gen_ret : MRet gen := λ A a, Gen [] (Normal a).

Global Instance gen_bind : MBind gen := λ A B f m,
  match m with
  | Gen tr (Normal a) => match f a with Gen tr' c => Gen (tr ++ tr') c end
  | Gen tr (Raised msg) => Gen tr (Raised msg)
  | Gen tr Returned => Gen tr Returned
  end.

Definition yield (status_text minutes_text : string) : gen unit :=
  Gen [Yield status_text minutes_text] (Normal ()).

(** An external call: the event is recorded, the oracle gives the outcome. *)
Definition call {A} (ev : event) (r : result A) : gen A :=
  Gen [ev] match r with Ok a => Normal a | Raise msg => Raised msg end.

(** [return] inside the generator. *)
Definition return_ {A} : gen A := Gen [] Returned.

(** [try: body except Exception as e: handler(str(e))]. A [Raised] is an
    [Exception]: what a collaborator raises that is a [BaseException] and
    no [Exception] ([KeyboardInterrupt], [SystemExit], [GeneratorExit])
    passes this handler and is outside the model. *)
Definition try_except {A} (body : gen A) (handler : string → gen A) : gen A :=
  match body with
  | Gen tr (Raised msg) =>
      match handler msg with Gen tr' c => Gen (tr ++ tr') c end
  | _ => body
  end.

(** [ev] followed by what [g] does. *)
Definition cons_event {A} (ev : event) (g : gen A) : gen A :=
  Gen (ev :: trace g) (ctl g).

(** config.py *)
Definition AUDIO_MODEL : string := "whisper-1".

(** [self.openai_client]: the two remote endpoints. The completion oracle
    returns [response.choices[0].message.content]. *)
Record OpenAI : Type := {
  audio_transcriptions_create :
    string → string → string → result string;
  chat_completions_create :
    string → list (string * string) → nat → string → result string
}.

(** [os.path.getsize] and [open(path, "rb")]. *)
Record Os : Type := {
  os_path_getsize : string → result Z;
  open_rb : string → result ()
}.

Section Processor.
Variable openai_client : OpenAI.
Variable os : Os.

Definition system_message : string :=
  "You are an assistant that produces professional meeting minutes from audio transcripts. " +:+
  "Create comprehensive minutes in markdown format with clear structure and actionable insights.".

Definition user_prompt (transcription : string) : string :=
  "Below is a transcript from a recorded meeting. Please analyze the transcript and create professional meeting minutes in markdown format. Include:" +:+ LF +:+
  LF +:+
  "1. **Meeting Summary** - Overview of the meeting purpose and key outcomes" +:+ LF +:+
  "2. **Attendees** - List of participants (extract names mentioned)" +:+ LF +:+
  "3. **Key Discussion Points** - Main topics and decisions discussed" +:+ LF +:+
  "4. **Action Items** - Specific tasks with owners and deadlines (if mentioned)" +:+ LF +:+
  "5. **Next Steps** - Follow-up actions or future meetings" +:+ LF +:+
  "6. **Additional Notes** - Any other important information" +:+ LF +:+
  LF +:+
  "Transcript:" +:+ LF +:+
  transcription.

Definition _generate_meeting_minutes (transcription : string) : gen string :=
  let messages :=
    [("system", system_message); ("user", user_prompt transcription)] in
  call (ChatCompletion "gpt-4" messages 2000 "0.7")
       (chat_completions_create openai_client "gpt-4" messages 2000 "0.7").

(** [if progress_callback: progress_callback(value, desc=desc)]. *)
Definition progress (progress_callback : option (string → string → result ()))
    (value desc : string) : gen unit :=
  match progress_callback with
  | Some cb => call (Progress value desc) (cb value desc)
  | None => mret ()
  end.

Definition process_meeting_audio
    (audio_file gdrive_file_id : option string)
    (download_callback : string → result (option string * string))
    (progress_callback : option (string → string → result ()))
    : gen unit :=
  yield "⏳ Initializing..." EmptyString;;
  try_except
    (audio_file_path ←
       match truthy gdrive_file_id with
       | Some gdrive_file_id =>
           yield "📁 Downloading from Google Drive..." EmptyString;;
           '(audio_file_path, error) ←
              call (Download gdrive_file_id) (download_callback gdrive_file_id);
           match audio_file_path with
           | None =>
               yield ("❌ Error downloading from Google Drive: " +:+ error) EmptyString;;
               return_
           | Some audio_file_path =>
               yield "📁 Downloaded from Google Drive" EmptyString;;
               mret audio_file_path
           end
       | None =>
           match truthy audio_file with
           | Some audio_file =>
               yield "📁 Using local file" EmptyString;;
               mret audio_file
           | None =>
               yield "❌ Please upload an audio file or select one from Google Drive" EmptyString;;
               return_
           end
       end;
     (* file_size_mb = file_size / (1024 * 1024) is computed and never read;
        the division cannot fail on a size a file system reports *)
     _ ← call (GetSize audio_file_path) (os_path_getsize os audio_file_path);
     progress progress_callback "0.1" "📁 File loaded successfully";;
     yield "📁 File loaded successfully" EmptyString;;
     progress progress_callback "0.2" "🎙️ Starting audio transcription...";;
     yield "🎙️ Starting audio transcription..." EmptyString;;
     call (OpenRb audio_file_path) (open_rb os audio_file_path);;
     progress progress_callback "0.3" "🔄 Transcribing audio (this may take a few minutes)...";;
     yield "🔄 Transcribing audio (this may take a few minutes)..." EmptyString;;
     transcription ←
       call (Transcribe AUDIO_MODEL audio_file_path "text")
            (audio_transcriptions_create openai_client AUDIO_MODEL audio_file_path "text");
     progress progress_callback "0.7" "✅ Transcription completed!";;
     yield transcription EmptyString;;
     progress progress_callback "0.8" "🤖 Generating meeting minutes...";;
     yield (transcription +:+ LF +:+ LF +:+ "🤖 Generating meeting minutes...") EmptyString;;
     meeting_minutes ← _generate_meeting_minutes transcription;
     progress progress_callback "0.95" "📝 Finalizing meeting minutes...";;
     yield (transcription +:+ LF +:+ LF +:+ "📝 Finalizing meeting minutes...") meeting_minutes;;
     progress progress_callback "1.0" "🎉 Complete! Meeting minutes generated successfully.";;
     yield transcription meeting_minutes)
    (λ e, yield ("❌ Error: " +:+ e) EmptyString).

End Processor.

(** The pairs a run yields, in order. *)
Fixpoint yields (tr : list event) : list (string * string) :=
  match tr with
  | [] => []
  | Yield s m :: tr => (s, m) :: yields tr
  | _ :: tr => yields tr
  end.

(** The pairs yielded before the completion endpoint is called. *)
Fixpoint yields_before_summary (tr : list event) : list (string * string) :=
  match tr with
  | [] => []
  | Yield s m :: tr => (s, m) :: yields_before_summary tr
  | ChatCompletion _ _ _ _ :: _ => []
  | _ :: tr => yields_before_summary tr
  end.

(** The pairs yielded from the call of the completion endpoint on. *)
Fixpoint yields_after_summary (tr : list event) : list (string * string) :=
  match tr with
  | [] => []
  | ChatCompletion _ _ _ _ :: tr => yields tr
  | _ :: tr => yields_after_summary tr
  end.

Definition is_remote_call (ev : event) : bool :=
  match ev with
  | Download _ | Transcribe _ _ _ | ChatCompletion _ _ _ _ => true
  | _ => false
  end.

Definition is_summarize (ev : event) : bool :=
  match ev with
  | ChatCompletion _ _ _ _ => true
  | _ => false
  end.

Definition is_progress (ev : event) : bool :=
  match ev with
  | Progress _ _ => true
  | _ => false
  end.

(** Two pieces of generator code do the same apart from calls of the
    progress callback, which only the first one makes. *)
Definition same_but_progress {A} (g1 g2 : gen A) : Prop :=
  filter (λ ev, is_progress ev = false) (trace g1) = trace g2
  ∧ ctl g1 = ctl g2.

End AudioProcessor.


(** ** google_drive_service.py *)

Module GoogleDriveService.

(** [google.oauth2.credentials.Credentials], as far as the service reads it. *)
Record Credentials : Type := {
  token : string;
  valid : bool;
  expired : bool;
  refresh_token : option string
}.

(** One entry of a [files().list] answer. The [fields] asked for always
    contain [id] and [name]; [mimeType] is read with [.get]. *)
Record DriveFile : Type := {
  id : string;
  name : string;
  mimeType : option string
}.

(** The Drive client returned by [build("drive", "v3", ...)]:
    [files_list q pageSize fields] is
    [service.files().list(...).execute().get("files", [])],
    [files_get_parents i] is [files().get(fileId=i, fields="parents")
    .execute().get("parents", [])] and [files_get_name i] is the ["name"]
    key of [files().get(fileId=i, fields="name").execute()]. *)
Record Service : Type := {
  files_list : string → nat → string → result (list DriveFile);
  files_get_parents : string → result (list string);
  files_get_name : string → result (option string)
}.

(** The page handed back to the browser. [_create_error_html] embeds its
    message in a fixed template and [_create_success_html] is a constant:
    the template text is presentation, the constructor and the message are
    what the service decides. *)
Inductive Html : Type :=
| ErrorPage (error_message : string)
| SuccessPage.

Definition _create_error_html (error_message : string) : Html :=
  ErrorPage error_message.

Definition _create_success_html : Html := SuccessPage.

(** [request.query_params.get(...)] for the three parameters read. *)
Record Request : Type := {
  code : option string;
  state : option string;
  error : option string
}.

(** The calls the service makes to the outside, as logged in [calls]. *)
Inductive Call : Type :=
| ReadToken
| WriteToken (creds : Credentials)
| RemoveToken
| Refresh (creds : Credentials)
| Build (creds : Credentials)
| FromClientSecretsFile
| TokenUrlsafe
| AuthorizationUrl (state : string)
| WebbrowserOpen (url : string)
| FetchToken (code : string).

(** Everything outside the service. The three file operations act on
    [TOKEN_FILE]; [token_urlsafe n] is the [n]-th value drawn from
    [secrets.token_urlsafe(32)]. *)
Record World : Type := {
  GOOGLE_CLIENT_ID : option string;
  GOOGLE_CLIENT_SECRET : option string;
  open_rb : result ();
  pickle_load : list Byte.byte → result (option Credentials);
  open_wb : result ();
  pickle_dump : Credentials → result (list Byte.byte);
  os_remove : result ();
  refresh : Credentials → result Credentials;
  build : Credentials → result Service;
  from_client_secrets_file : result ();
  token_urlsafe : nat → string;
  authorization_url : string → result string;
  webbrowser_open : string → result ();
  fetch_token : string → result Credentials
}.

(** What the service mutates: the token file on disk ([None] when
    [os.path.exists(TOKEN_FILE)] is false), [self.oauth_states], the number
    of random tokens drawn, and the log of outside calls. *)
Record State : Type := {
  token_file : option (list Byte.byte);
  oauth_states : gmap string bool;
  draws : nat;
  calls : list Call
}.

(** State passing with exceptions: a raise keeps the mutations made so far. *)
Record M (A : Type) : Type := MkM { run : State → result A * State }.
Global Arguments MkM {A} run.
Global Arguments run {A} m s.

Global Instance M_ret : MRet M := λ A a, MkM (λ s, (Ok a, s)).

Global Instance M_bind : MBind M := λ A B f m,
  MkM (λ s,
    match run m s with
    | (Ok a, s') => run (f a) s'
    | (Raise msg, s') => (Raise msg, s')
    end).

(** [try: body except Exception as e: handler(str(e))]. *)
Definition try_except {A} (body : M A) (handler : string → M A) : M A :=
  MkM (λ s,
    match run body s with
    | (Raise msg, s') => run (handler msg) s'
    | r => r
    end).

Definition log (c : Call) : M unit :=
  MkM (λ s, (Ok (), {| token_file := token_file s; oauth_states := oauth_states s;
                       draws := draws s; calls := calls s ++ [c] |})).

(** A logged outside call whose outcome the world decides. *)
Definition call {A} (c : Call) (r : result A) : M A :=
  log c;; MkM (λ s, (r, s)).

Definition set_token_file (f : option (list Byte.byte)) : M unit :=
  MkM (λ s, (Ok (), {| token_file := f; oauth_states := oauth_states s;
                       draws := draws s; calls := calls s |})).

Definition set_oauth_states (m : gmap string bool) : M unit :=
  MkM (λ s, (Ok (), {| token_file := token_file s; oauth_states := m;
                       draws := draws s; calls := calls s |})).

Definition get_oauth_states : M (gmap string bool) :=
  MkM (λ s, (Ok (oauth_states s), s)).

Section Service.
Variable w : World.

(** [os.path.exists(TOKEN_FILE)]. *)
Definition os_path_exists : M bool :=
  MkM (λ s, (Ok (bool_decide (is_Some (token_file s))), s)).

(** [with open(TOKEN_FILE, "rb") as token: creds = pickle.load(token)]. *)
Definition load_token : M (option Credentials) :=
  log ReadToken;;
  MkM (λ s,
    match token_file s with
    | None => (Raise "[Errno 2] No such file or directory: 'token.pickle'", s)
    | Some content =>
        match open_rb w with
        | Raise msg => (Raise msg, s)
        | Ok _ => (pickle_load w content, s)
        end
    end).

(** [with open(TOKEN_FILE, "wb") as token: pickle.dump(creds, token)].
    Opening for writing truncates the file before anything is pickled. *)
Definition dump_token (creds : Credentials) : M unit :=
  log (WriteToken creds);;
  match open_wb w with
  | Raise msg => MkM (λ s, (Raise msg, s))
  | Ok _ =>
      set_token_file (Some []);;
      match pickle_dump w creds with
      | Raise msg => MkM (λ s, (Raise msg, s))
      | Ok content => set_token_file (Some content)
      end
  end.

(** [if os.path.exists(TOKEN_FILE): ... creds = pickle.load(token)],
    with [creds] left at [None] otherwise. *)
Definition load_if_exists : M (option Credentials) :=
  file_exists ← os_path_exists;
  if (file_exists : bool) then load_token else mret None.

(** [creds and creds.valid]. *)
Definition creds_valid (creds : option Credentials) : bool :=
  match creds with
  | Some creds => valid creds
  | None => false
  end.

Definition build_service (creds : Credentials)
    : M (option Service * option string) :=
  try_except
    (service ← call (Build creds) (build w creds);
     mret (Some service, None))
    (λ e, mret (None, Some ("Error creating Google Drive service: " +:+ e))).

Definition get_service : M (option Service * option string) :=
  creds ← load_if_exists;
  match creds with
  | Some creds =>
      if valid creds then build_service creds
      else if expired creds && bool_decide (is_Some (truthy (refresh_token creds))) then
        refreshed ← try_except
                      (creds ← call (Refresh creds) (refresh w creds);
                       mret (inl creds))
                      (λ e, mret (inr e));
        match refreshed with
        | inr e => mret (None, Some ("Error refreshing credentials: " +:+ e))
        | inl creds => dump_token creds;; build_service creds
        end
      else mret (None, Some "Please authorize Google Drive access first")
  | None => mret (None, Some "Please authorize Google Drive access first")
  end.

(** [secrets.token_urlsafe(32)]. *)
Definition secrets_token_urlsafe : M string :=
  log TokenUrlsafe;;
  MkM (λ s, (Ok (token_urlsafe w (draws s)),
             {| token_file := token_file s; oauth_states := oauth_states s;
                draws := S (draws s); calls := calls s |})).

Definition start_oauth_flow : M string :=
  try_except
    (if bool_decide (truthy (GOOGLE_CLIENT_ID w) = None)
        || bool_decide (truthy (GOOGLE_CLIENT_SECRET w) = None)
     then mret "❌ Google OAuth credentials not found. Please set GOOGLE_CLIENT_ID and GOOGLE_CLIENT_SECRET environment variables."
     else
       creds ← load_if_exists;
       if creds_valid creds
       then mret "✅ Google Drive already authorized and ready to use!"
       else
         call FromClientSecretsFile (from_client_secrets_file w);;
         state ← secrets_token_urlsafe;
         auth_url ← call (AuthorizationUrl state) (authorization_url w state);
         oauth_states ← get_oauth_states;
         set_oauth_states (<[state := true]> oauth_states);;
         call (WebbrowserOpen auth_url) (webbrowser_open w auth_url);;
         mret ("🔗 Authorization opened in your browser!" +:+ LF +:+ LF +:+
               "Complete the authorization and you'll be automatically redirected back to the app." +:+ LF +:+ LF +:+
               "⚠️ If you get an 'access_denied' error:" +:+ LF +:+
               "1. Go to Google Cloud Console → OAuth consent screen" +:+ LF +:+
               "2. Add your email to 'Test users' section" +:+ LF +:+
               "3. Or publish the app to make it available to all users"))
    (λ e, mret ("❌ Error starting authorization: " +:+ e)).

Definition reset_oauth : M string :=
  try_except
    (file_exists ← os_path_exists;
     (if (file_exists : bool)
      then call RemoveToken (os_remove w);; set_token_file None
      else mret ());;
     set_oauth_states ∅;;
     mret "✅ Google Drive authorization reset successfully! You can now re-authorize with a fresh token.")
    (λ e, mret ("❌ Error resetting authorization: " +:+ e)).

Definition check_initial_auth_status : M string :=
  try_except
    (creds ← load_if_exists;
     if creds_valid creds
     then mret "✅ Google Drive already authorized and ready to use!"
     else mret "🔐 Google Drive not authorized. Click 'Authorize Google Drive' to get started.")
    (λ e, mret ("❌ Error checking authorization status: " +:+ e)).

Definition handle_oauth_callback (request : Request) : M Html :=
  try_except
    (match truthy (error request) with
     | Some error =>
         mret (_create_error_html ("Authorization failed: " +:+ error))
     | None =>
         match truthy (code request), truthy (state request) with
         | Some code, Some state =>
             oauth_states ← get_oauth_states;
             if bool_decide (oauth_states !! state = None)
             then mret (_create_error_html "Invalid state: Authorization state mismatch. Please try again.")
             else
               call FromClientSecretsFile (from_client_secrets_file w);;
               creds ← call (FetchToken code) (fetch_token w code);
               dump_token creds;;
               oauth_states ← get_oauth_states;
               set_oauth_states (delete state oauth_states);;
               mret _create_success_html
         | _, _ =>
             mret (_create_error_html "Invalid authorization response: Missing authorization code or state parameter.")
         end
     end)
    (λ e, mret (_create_error_html ("Authorization error: " +:+ e))).

(** [get_file_path]: the [while True] walk up the parent chain, one
    iteration per unit of [fuel]; [None] when the fuel runs out before the
    loop breaks. [Some (Raise _)] is an exception inside the [try]. *)
Fixpoint get_file_path_loop (fuel : nat) (service : Service)
    (current_id : string) (path_parts : list string)
    : option (result (list string)) :=
  match fuel with
  | O => None
  | S fuel =>
      match files_get_parents service current_id with
      | Raise msg => Some (Raise msg)
      | Ok [] => Some (Ok path_parts)
      | Ok (parent_id :: _) =>
          if String.eqb parent_id "0" then Some (Ok path_parts)
          else
            match files_get_name service parent_id with
            | Raise msg => Some (Raise msg)
            | Ok parent_name =>
                get_file_path_loop fuel service parent_id
                  (default "Unknown" parent_name :: path_parts)
            end
      end
  end.

Definition get_file_path (fuel : nat) (service : Service)
    (file_id file_name : string) : option string :=
  match get_file_path_loop fuel service file_id [file_name] with
  | None => None
  | Some (Ok path_parts) => Some (join " / " path_parts)
  | Some (Raise _) => Some file_name
  end.



Definition audio_queries : list string :=
  [ "mimeType contains 'audio/' and trashed=false";
    "name contains '.mp3' and trashed=false";
    "name contains '.wav' and trashed=false";
    "name contains '.m4a' and trashed=false";
    "name contains '.flac' and trashed=false";
    "name contains '.aac' and trashed=false";
    "name contains '.ogg' and trashed=false";
    "name contains '.wma' and trashed=false" ].

(** [for file in files: if file["id"] not in seen_ids: ...] on the pair
    [(all_audio_files, seen_ids)]. *)
Definition add_files (files : list DriveFile)
    (acc : list DriveFile * gset string) : list DriveFile * gset string :=
  foldl (λ '(all_audio_files, seen_ids) file,
           if bool_decide (id file ∈ seen_ids)
           then (all_audio_files, seen_ids)
           else (all_audio_files ++ [file], seen_ids ∪ {[id file]}))
        acc files.

(** What the merge loop keeps true of [(all_audio_files, seen_ids)]: no
    identifier occurs twice, and [seen_ids] is the set of identifiers
    collected. *)
Definition merged (acc : list DriveFile * gset string) : Prop :=
  NoDup (id <$> acc.1) ∧ ∀ i, i ∈ acc.2 ↔ i ∈ id <$> acc.1.

(** [for query in audio_queries: try: ... except Exception: continue]. *)
Definition collect_audio_files (service : Service) (queries : list string)
    (acc : list DriveFile * gset string) : list DriveFile * gset string :=
  foldl (λ acc query,
           match files_list service query 20
                   "files(id, name, mimeType, webViewLink, parents)" with
           | Ok files => add_files files acc
           | Raise _ => acc
           end)
        acc queries.

(** [mime_type.split("/")[0] if "/" in mime_type else "unknown"]. *)
Fixpoint before_slash (mime_type : string) : option string :=
  match mime_type with
  | EmptyString => None
  | String c rest =>
      if Ascii.eqb c "/"%char then Some EmptyString
      else String c <$> before_slash rest
  end.

Definition base_type_of (file : DriveFile) : string :=
  default "unknown" (before_slash (default "unknown" (mimeType file))).

(** [file_types[base_type] = file_types.get(base_type, 0) + 1] on a dict
    that keeps insertion order. *)
Fixpoint dict_incr (base_type : string) (file_types : list (string * nat))
    : list (string * nat) :=
  match file_types with
  | [] => [(base_type, 1)]
  | (k, count) :: rest =>
      if String.eqb k base_type then (k, count + 1) :: rest
      else (k, count) :: dict_incr base_type rest
  end.


Definition count_file_types (files : list DriveFile) : list (string * nat) :=
  foldl (λ file_types file, dict_incr (base_type_of file) file_types) [] files.

Definition type_summary (all_files : list DriveFile) : string :=
  join ", "
    ((λ '(type, count), str_of_nat count +:+ " " +:+ type)
       <$> count_file_types (take 10 all_files)).

(** The dropdown entries, one per file; [None] if a path walk ran out of
    fuel. *)
Fixpoint file_options_of (fuel : nat) (service : Service)
    (files : list DriveFile) : option (list (string * string)) :=
  match files with
  | [] => Some []
  | file :: rest =>
      file_path ← get_file_path fuel service (id file) (name file);
      file_options ← file_options_of fuel service rest;
      Some (("🎵 " +:+ name file +:+ " - " +:+ file_path, id file) :: file_options)
  end.

(** [browse_google_drive] from the point where [service] is in hand. *)
Definition browse_with (fuel : nat) (service : Service)
    : option (list (string * string) * string) :=
  match files_list service "trashed=false" 5 "files(id, name, mimeType)" with
  | Raise e => Some ([], "❌ Cannot access Google Drive files: " +:+ e)
  | Ok [] => Some ([], "❌ No files found in your Google Drive.")
  | Ok all_files =>
      let '(all_audio_files, _) :=
        collect_audio_files service audio_queries ([], ∅) in
      match all_audio_files with
      | [] =>
          Some ([], "❌ No audio files found in your Google Drive. Found: "
                    +:+ type_summary all_files +:+ " files.")
      | _ =>
          file_options ← file_options_of fuel service (take 20 all_audio_files);
          Some (file_options,
                "✅ Found " +:+ str_of_nat (length all_audio_files)
                +:+ " audio files in your Google Drive.")
      end
  end.

Definition browse_google_drive (fuel : nat)
    : M (option (list (string * string) * string)) :=
  try_except
    ('(service, error) ← get_service;
     match service with
     | None => mret (Some ([], "❌ " +:+ default "None" error))
     | Some service => mret (browse_with fuel service)
     end)
    (λ e, mret (Some ([], "❌ Error browsing Google Drive: " +:+ e))).

End Service.




(** The outcomes of the OAuth operations, by the names the specification
    gives them, as the pages and status lines the service returns. *)
Definition ProviderDenied (error : string) : Html :=
  _create_error_html ("Authorization failed: " +:+ error).

Definition MalformedCallback : Html :=
  _create_error_html "Invalid authorization response: Missing authorization code or state parameter.".

Definition StateMismatch : Html :=
  _create_error_html "Invalid state: Authorization state mismatch. Please try again.".

Definition ExchangeFailed (detail : string) : Html :=
  _create_error_html ("Authorization error: " +:+ detail).

Definition Authorized : Html := _create_success_html.

Definition AlreadyAuthorized : string :=
  "✅ Google Drive already authorized and ready to use!".

Definition Unauthorized : string :=
  "🔐 Google Drive not authorized. Click 'Authorize Google Drive' to get started.".

Definition ConfigurationError : string :=
  "❌ Google OAuth credentials not found. Please set GOOGLE_CLIENT_ID and GOOGLE_CLIENT_SECRET environment variables.".

Definition ResetDone : string :=
  "✅ Google Drive authorization reset successfully! You can now re-authorize with a fresh token.".


(** What [download_from_google_drive] uses beyond [World] and [Service]:
    [files_get service i] is the ["name"] key of
    [service.files().get(fileId=i).execute()], [files_get_media service i]
    is [service.files().get_media(fileId=i).execute()], [str_strip] is
    [str.strip], [os_path_splitext name] is [os.path.splitext(name)[1]],
    [NamedTemporaryFile suffix] is the name of
    [tempfile.NamedTemporaryFile(delete=False, suffix=suffix)], [open_temp]
    opens that file for writing and [write_temp] writes the content. *)
Record Download : Type := {
  files_get : Service → string → result (option string);
  files_get_media : Service → string → result (list Byte.byte);
  str_strip : string → string;
  os_path_splitext : string → string;
  NamedTemporaryFile : string → result string;
  open_temp : string → result ();
  write_temp : string → list Byte.byte → result ()
}.

(** An outside call whose outcome is all that matters. *)
Definition lift {A} (r : result A) : M A := MkM (λ s, (r, s)).

Section Downloading.
Variable w : World.
Variable d : Download.

(** The file identifier taken from the input, which is a URL or the
    identifier itself; [Ok None] stands for the early return on a URL of
    neither known form. *)
Definition file_id_of (file_input : string) : result (option string) :=
  if contains "drive.google.com" file_input then
    if contains "/file/d/" file_input then
      match split_1 "/file/d/" file_input with
      | Some part => Ok (Some (split_0 "/" part))
      | None => Raise "list index out of range"
      end
    else if contains "id=" file_input then
      match split_1 "id=" file_input with
      | Some part => Ok (Some (split_0 "&" part))
      | None => Raise "list index out of range"
      end
    else Ok None
  else Ok (Some (str_strip d file_input)).

Definition download_from_google_drive (file_input : string)
    : M (option string * option string) :=
  try_except
    ('(service, error) ← get_service w;
     match service with
     | None => mret (None, error)
     | Some service =>
         file_id ← lift (file_id_of file_input);
         match file_id with
         | None => mret (None, Some "Invalid Google Drive URL format")
         | Some file_id =>
             match files_get d service file_id with
             | Raise e =>
                 mret (None,
                       Some ("Error accessing file: " +:+ e +:+
                             ". Make sure you have access to this file."))
             | Ok file_name =>
                 let file_name := default "downloaded_file" file_name in
                 let file_extension :=
                   match os_path_splitext d file_name with
                   | EmptyString => ".mp3"
                   | extension => extension
                   end in
                 temp_file ← lift (NamedTemporaryFile d file_extension);
                 lift (open_temp d temp_file);;
                 downloader ← lift (files_get_media d service file_id);
                 lift (write_temp d temp_file downloader);;
                 mret (Some temp_file,
                       Some ("File '" +:+ file_name +:+ "' downloaded successfully"))
             end
         end
     end)
    (λ e, mret (None, Some ("Error downloading file: " +:+ e))).

End Downloading.

End GoogleDriveService.

(** ** config.py *)

Module Config.


End Config.

(** ** ui_components.py *)

Module UIComponents.
Import AudioProcessor GoogleDriveService.

(** [_check_initial_browse_visibility]: the [visible] flag of the update. *)
Definition _check_initial_browse_visibility (w : World) : M bool :=
  try_except
    (creds ← load_if_exists w;
     if creds_valid creds then mret true else mret false)
    (λ _, mret false).

(** [_process_meeting_audio_wrapper]: the last pair the generator yields,
    two empty strings if it yields none. [download_callback] stands for
    the call of [download_from_google_drive]; its error, when there is no
    text, is printed as [None] by the f-string of the pipeline. *)
Definition _process_meeting_audio_wrapper
    (openai_client : OpenAI) (os : Os)
    (download_callback : string → result (option string * option string))
    (progress : string → string → result ())
    (audio_file gdrive_file_id : option string) : string * string :=
  let result_generator :=
    process_meeting_audio openai_client os audio_file gdrive_file_id
      (λ file_id,
         match download_callback file_id with
         | Ok (path, error) => Ok (path, default "None" error)
         | Raise e => Raise e
         end)
      (Some progress) in
  foldl (λ _ pair, pair) (EmptyString, EmptyString)
        (yields (trace result_generator)).

End UIComponents.

(** ** Concrete collaborators used to run the model *)

Module Examples.
Import AudioProcessor.

(** An OpenAI client whose two endpoints answer. *)
Definition openai_ok : OpenAI := {|
  audio_transcriptions_create := λ _ _ _, Ok "hello team";
  chat_completions_create := λ _ _ _ _, Ok "# Minutes"
|}.

(** An OpenAI client whose transcription endpoint cannot be reached. *)
Definition openai_transcription_down : OpenAI := {|
  audio_transcriptions_create := λ _ _ _, Raise "Connection error.";
  chat_completions_create := λ _ _ _ _, Ok "# Minutes"
|}.

(** A file system on which every path can be measured and opened. *)
Definition os_ok : Os := {|
  os_path_getsize := λ _, Ok 1024%Z;
  open_rb := λ _, Ok ()
|}.

(** A download callback that stores the file under a temporary name. *)
Definition download_ok (file_id : string) : result (option string * string) :=
  Ok (Some ("/tmp/" +:+ file_id +:+ ".mp3"), "File downloaded successfully").


(** A download callback that finds the Drive not authorized. *)
Definition download_unauthorized (file_id : string)
    : result (option string * string) :=
  Ok (None, "Please authorize Google Drive access first").

(** A progress callback that takes every update. *)
Definition progress_ok (value desc : string) : result () := Ok ().

Import GoogleDriveService.

(** Credentials as a completed authorization leaves them. *)
Definition fresh_creds : Credentials := {|
  token := "ya29.a0";
  valid := true;
  expired := false;
  refresh_token := Some "1//0g"
|}.

(** A Drive without files. *)
Definition empty_drive : Service := {|
  files_list := λ _ _ _, Ok [];
  files_get_parents := λ _, Ok [];
  files_get_name := λ _, Ok None
|}.

(** A configured installation in which every collaborator answers. Only
    the empty file fails to unpickle. *)
Definition world_ok : World := {|
  GOOGLE_CLIENT_ID := Some "client-id.apps.googleusercontent.com";
  GOOGLE_CLIENT_SECRET := Some "client-secret";
  GoogleDriveService.open_rb := Ok ();
  pickle_load := λ content,
    match content with
    | [] => Raise "Ran out of input"
    | _ => Ok (Some fresh_creds)
    end;
  open_wb := Ok ();
  pickle_dump := λ _, Ok [Byte.x80; Byte.x04];
  os_remove := Ok ();
  refresh := λ creds, Ok creds;
  build := λ _, Ok empty_drive;
  from_client_secrets_file := Ok ();
  token_urlsafe := λ n, "state-" +:+ str_of_nat n;
  authorization_url := λ state, Ok ("https://accounts.google.com/o/oauth2/auth?state=" +:+ state);
  webbrowser_open := λ _, Ok ();
  fetch_token := λ _, Ok fresh_creds
|}.

(** The same installation with [GOOGLE_CLIENT_ID] unset. *)
Definition world_unconfigured : World := {|
  GOOGLE_CLIENT_ID := None;
  GOOGLE_CLIENT_SECRET := GOOGLE_CLIENT_SECRET world_ok;
  GoogleDriveService.open_rb := GoogleDriveService.open_rb world_ok;
  pickle_load := pickle_load world_ok;
  open_wb := open_wb world_ok;
  pickle_dump := pickle_dump world_ok;
  os_remove := os_remove world_ok;
  refresh := refresh world_ok;
  build := build world_ok;
  from_client_secrets_file := from_client_secrets_file world_ok;
  token_urlsafe := token_urlsafe world_ok;
  authorization_url := authorization_url world_ok;
  webbrowser_open := webbrowser_open world_ok;
  fetch_token := fetch_token world_ok
|}.

(** The same installation with a token file that cannot be removed. *)
Definition world_readonly : World := {|
  GOOGLE_CLIENT_ID := GOOGLE_CLIENT_ID world_ok;
  GOOGLE_CLIENT_SECRET := GOOGLE_CLIENT_SECRET world_ok;
  GoogleDriveService.open_rb := GoogleDriveService.open_rb world_ok;
  pickle_load := pickle_load world_ok;
  open_wb := open_wb world_ok;
  pickle_dump := pickle_dump world_ok;
  os_remove := Raise "[Errno 13] Permission denied: 'token.pickle'";
  refresh := refresh world_ok;
  build := build world_ok;
  from_client_secrets_file := from_client_secrets_file world_ok;
  token_urlsafe := token_urlsafe world_ok;
  authorization_url := authorization_url world_ok;
  webbrowser_open := webbrowser_open world_ok;
  fetch_token := fetch_token world_ok
|}.

(** A process that has just started, without a token file. *)
Definition state_initial : State := {|
  token_file := None; oauth_states := ∅; draws := 0; calls := []
|}.

(** A process with a pickled token on disk and one authorization pending. *)
Definition state_authorized : State := {|
  token_file := Some [Byte.x80; Byte.x04];
  oauth_states := {["state-0" := true]};
  draws := 1;
  calls := []
|}.

(** A process whose token file is empty, which does not unpickle. *)
Definition state_corrupt : State := {|
  token_file := Some []; oauth_states := ∅; draws := 0; calls := []
|}.

(** A process with one authorization pending and no token yet. *)
Definition state_pending : State := {|
  token_file := None;
  oauth_states := {["state-0" := true]};
  draws := 1;
  calls := []
|}.

(** A recording and a text document, as [files().list] reports them. *)
Definition standup_recording : DriveFile := {|
  id := "1a"; name := "standup.mp3"; mimeType := Some "audio/mpeg"
|}.

Definition agenda_document : DriveFile := {|
  id := "2b"; name := "agenda.txt"; mimeType := Some "text/plain"
|}.

(** A Drive holding both, the recording in the folder [Meetings]. The
    recording matches the MIME query and the [.mp3] name query; the [.wma]
    query fails on the server. *)
Definition drive_with_recording : Service := {|
  files_list := λ q _ _,
    if String.eqb q "trashed=false"
    then Ok [standup_recording; agenda_document]
    else if String.eqb q "mimeType contains 'audio/' and trashed=false"
    then Ok [standup_recording]
    else if String.eqb q "name contains '.mp3' and trashed=false"
    then Ok [standup_recording]
    else if String.eqb q "name contains '.wma' and trashed=false"
    then Raise "HttpError 500"
    else Ok [];
  files_get_parents := λ i,
    if String.eqb i "1a" then Ok ["f1"] else Ok ["0"];
  files_get_name := λ i,
    if String.eqb i "f1" then Ok (Some "Meetings") else Ok None
|}.

(** The configured installation connected to that Drive. *)
Definition world_recording : World := {|
  GOOGLE_CLIENT_ID := GOOGLE_CLIENT_ID world_ok;
  GOOGLE_CLIENT_SECRET := GOOGLE_CLIENT_SECRET world_ok;
  GoogleDriveService.open_rb := GoogleDriveService.open_rb world_ok;
  pickle_load := pickle_load world_ok;
  open_wb := open_wb world_ok;
  pickle_dump := pickle_dump world_ok;
  os_remove := os_remove world_ok;
  refresh := refresh world_ok;
  build := λ _, Ok drive_with_recording;
  from_client_secrets_file := from_client_secrets_file world_ok;
  token_urlsafe := token_urlsafe world_ok;
  authorization_url := authorization_url world_ok;
  webbrowser_open := webbrowser_open world_ok;
  fetch_token := fetch_token world_ok
|}.

(** Credentials whose access token has run out and can be renewed. *)
Definition expired_creds : Credentials := {|
  token := "ya29.old";
  valid := false;
  expired := true;
  refresh_token := Some "1//0g"
|}.

(** An installation whose token file holds expired credentials and whose
    provider renews them. *)
Definition world_expired : World := {|
  GOOGLE_CLIENT_ID := GOOGLE_CLIENT_ID world_ok;
  GOOGLE_CLIENT_SECRET := GOOGLE_CLIENT_SECRET world_ok;
  GoogleDriveService.open_rb := GoogleDriveService.open_rb world_ok;
  pickle_load := λ _, Ok (Some expired_creds);
  open_wb := open_wb world_ok;
  pickle_dump := pickle_dump world_ok;
  os_remove := os_remove world_ok;
  refresh := λ _, Ok fresh_creds;
  build := build world_ok;
  from_client_secrets_file := from_client_secrets_file world_ok;
  token_urlsafe := token_urlsafe world_ok;
  authorization_url := authorization_url world_ok;
  webbrowser_open := webbrowser_open world_ok;
  fetch_token := fetch_token world_ok
|}.

(** The same installation when the provider has revoked the refresh token. *)
Definition world_revoked : World := {|
  GOOGLE_CLIENT_ID := GOOGLE_CLIENT_ID world_ok;
  GOOGLE_CLIENT_SECRET := GOOGLE_CLIENT_SECRET world_ok;
  GoogleDriveService.open_rb := GoogleDriveService.open_rb world_ok;
  pickle_load := λ _, Ok (Some expired_creds);
  open_wb := open_wb world_ok;
  pickle_dump := pickle_dump world_ok;
  os_remove := os_remove world_ok;
  refresh := λ _, Raise "invalid_grant: Token has been expired or revoked.";
  build := build world_ok;
  from_client_secrets_file := from_client_secrets_file world_ok;
  token_urlsafe := token_urlsafe world_ok;
  authorization_url := authorization_url world_ok;
  webbrowser_open := webbrowser_open world_ok;
  fetch_token := fetch_token world_ok
|}.

(** A configured installation whose provider rejects every code. *)
Definition world_exchange_down : World := {|
  GOOGLE_CLIENT_ID := GOOGLE_CLIENT_ID world_ok;
  GOOGLE_CLIENT_SECRET := GOOGLE_CLIENT_SECRET world_ok;
  GoogleDriveService.open_rb := GoogleDriveService.open_rb world_ok;
  pickle_load := pickle_load world_ok;
  open_wb := open_wb world_ok;
  pickle_dump := pickle_dump world_ok;
  os_remove := os_remove world_ok;
  refresh := refresh world_ok;
  build := build world_ok;
  from_client_secrets_file := from_client_secrets_file world_ok;
  token_urlsafe := token_urlsafe world_ok;
  authorization_url := authorization_url world_ok;
  webbrowser_open := webbrowser_open world_ok;
  fetch_token := λ _, Raise "(invalid_grant) Bad Request"
|}.

(** The redirect of a granted authorization for the state [state-0]. *)
Definition request_granted : Request := {|
  code := Some "4/0AbC";
  state := Some "state-0";
  error := None
|}.

(** A Drive whose listing endpoint is down. *)
Definition drive_unreachable : Service := {|
  files_list := λ _ _ _, Raise "HttpError 503";
  files_get_parents := λ _, Ok [];
  files_get_name := λ _, Ok None
|}.

(** The configured installation connected to that Drive. *)
Definition world_unreachable : World := {|
  GOOGLE_CLIENT_ID := GOOGLE_CLIENT_ID world_ok;
  GOOGLE_CLIENT_SECRET := GOOGLE_CLIENT_SECRET world_ok;
  GoogleDriveService.open_rb := GoogleDriveService.open_rb world_ok;
  pickle_load := pickle_load world_ok;
  open_wb := open_wb world_ok;
  pickle_dump := pickle_dump world_ok;
  os_remove := os_remove world_ok;
  refresh := refresh world_ok;
  build := λ _, Ok drive_unreachable;
  from_client_secrets_file := from_client_secrets_file world_ok;
  token_urlsafe := token_urlsafe world_ok;
  authorization_url := authorization_url world_ok;
  webbrowser_open := webbrowser_open world_ok;
  fetch_token := fetch_token world_ok
|}.

(** [str.lstrip] for the ASCII white space. *)
Fixpoint lstrip (s : string) : string :=
  match s with
  | String c rest => if Ascii.is_space c then lstrip rest else s
  | EmptyString => EmptyString
  end.

(** The extension of a plain file name: from its last dot on. *)
Fixpoint extension (file_name : string) : option string :=
  match file_name with
  | EmptyString => None
  | String c rest =>
      match extension rest with
      | Some e => Some e
      | None => if Ascii.eqb c "."%char then Some file_name else None
      end
  end.

(** The rest of the Drive client and the temporary files, for Drives whose
    files are all called [standup.mp3]. *)
Definition drive_download : Download := {|
  files_get := λ _ _, Ok (Some "standup.mp3");
  files_get_media := λ _ _, Ok [Byte.x49; Byte.x44; Byte.x33];
  str_strip := λ s, String.rev (lstrip (String.rev (lstrip s)));
  os_path_splitext := λ file_name, default EmptyString (extension file_name);
  NamedTemporaryFile := λ suffix, Ok ("/tmp/tmp8x2kq1" +:+ suffix);
  open_temp := λ _, Ok ();
  write_temp := λ _ _, Ok ()
|}.



End Examples.

(** * Properties of the pipeline *)

Section PipelineProperties.
Import AudioProcessor.
Variable openai_client : OpenAI.
Variable os : Os.
Variable download_callback : string → result (option string * string).
Variable progress_callback : option (string → string → result ()).

Abbreviation run audio_file gdrive_file_id :=
  (process_meeting_audio openai_client os audio_file gdrive_file_id
     download_callback progress_callback).

Lemma trace_bind {A B} (m : gen A) (f : A → gen B) :
  trace (m ≫= f)
  = trace m ++ match ctl m with Normal a => trace (f a) | _ => [] end.
Proof.
  destruct m as [tr [a|msg|]]; unfold mbind, gen_bind; simpl.
  - by destruct (f a).
  - by rewrite app_nil_r.
  - by rewrite app_nil_r.
Qed.

Lemma trace_try_except {A} (body : gen A) (handler : string → gen A) :
  trace (try_except body handler)
  = trace body ++ match ctl body with Raised e => trace (handler e) | _ => [] end.
Proof.
  destruct body as [tr [a|msg|]]; unfold try_except; simpl.
  - by rewrite app_nil_r.
  - by destruct (handler msg).
  - by rewrite app_nil_r.
Qed.

(** Equations of the generator monad *)

Lemma bind_yield {B} s m (f : () → gen B) :
  yield s m ≫= f = cons_event (Yield s m) (f ()).
Proof. unfold mbind, gen_bind, yield, cons_event. by destruct (f ()). Qed.

Lemma bind_call_ok {A B} ev (a : A) (f : A → gen B) :
  call ev (Ok a) ≫= f = cons_event ev (f a).
Proof. unfold mbind, gen_bind, call, cons_event. by destruct (f a). Qed.

Lemma bind_call_raise {A B} ev msg (f : A → gen B) :
  call ev (Raise msg) ≫= f = Gen [ev] (Raised msg).
Proof. reflexivity. Qed.

Lemma bind_ret {A B} (a : A) (f : A → gen B) : mret a ≫= f = f a.
Proof. unfold mbind, gen_bind, mret, gen_ret. by destruct (f a). Qed.

Lemma bind_return {A B} (f : A → gen B) : return_ ≫= f = return_.
Proof. reflexivity. Qed.

Lemma bind_raised {A B} tr msg (f : A → gen B) :
  Gen tr (Raised msg) ≫= f = Gen tr (Raised msg).
Proof. reflexivity. Qed.

Lemma bind_cons_event {A B} ev (g : gen A) (f : A → gen B) :
  cons_event ev g ≫= f = cons_event ev (g ≫= f).
Proof.
  destruct g as [tr [a|msg|]]; unfold mbind, gen_bind, cons_event; simpl; try done.
  by destruct (f a).
Qed.

Lemma bind_assoc {A B C} (m : gen A) (f : A → gen B) (g : B → gen C) :
  (m ≫= f) ≫= g = m ≫= (λ a, f a ≫= g).
Proof.
  destruct m as [tr [a|msg|]]; unfold mbind, gen_bind; simpl; try done.
  destruct (f a) as [tr' [b|msg|]]; simpl; try done.
  destruct (g b) as [tr'' c]. by rewrite app_assoc.
Qed.

Lemma try_cons_event {A} ev (g : gen A) h :
  try_except (cons_event ev g) h = cons_event ev (try_except g h).
Proof.
  destruct g as [tr [a|msg|]]; unfold try_except, cons_event; simpl; try done.
  by destruct (h msg).
Qed.

Lemma try_raised {A} ev msg (h : string → gen A) :
  try_except (Gen [ev] (Raised msg)) h = cons_event ev (h msg).
Proof. unfold try_except, cons_event. by destruct (h msg). Qed.

Lemma try_returned {A} (h : string → gen A) :
  try_except return_ h = return_.
Proof. reflexivity. Qed.

Lemma trace_cons_event {A} ev (g : gen A) : trace (cons_event ev g) = ev :: trace g.
Proof. reflexivity. Qed.

Lemma try_yield s m (h : string → gen unit) :
  try_except (yield s m) h = yield s m.
Proof. reflexivity. Qed.

(** One step of symbolic execution of the body of the [try]. *)
Ltac exec_body b :=
  lazymatch b with
  | ?m ≫= _ =>
      lazymatch m with
      | _ ≫= _ => rewrite bind_assoc
      | yield _ _ => rewrite bind_yield
      | mret _ => rewrite bind_ret
      | return_ => rewrite bind_return
      | cons_event _ _ => rewrite bind_cons_event
      | call _ ?r =>
          destruct r eqn:?; [rewrite bind_call_ok | rewrite bind_call_raise]
      | match ?x with _ => _ end => destruct x eqn:?
      end
  | cons_event _ _ => rewrite try_cons_event, trace_cons_event
  | Gen [_] (Raised _) => rewrite try_raised, trace_cons_event
  | return_ => rewrite try_returned
  | yield _ _ => rewrite try_yield
  end; cbv beta.

Ltac exec_step2 :=
  lazymatch goal with
  | |- context [try_except ?b _] => exec_body b
  end.

(** Runs the generator symbolically: one goal per way a run can go, with
    the trace of that run spelled out. *)
Ltac exec_pipeline :=
  unfold process_meeting_audio, _generate_meeting_minutes, progress;
  rewrite bind_yield, trace_cons_event;
  destruct progress_callback as [cb|];
  repeat exec_step2; simpl.

(** C5. With neither a local path nor a remote identifier (both [None], or
    empty), the run yields the initial status and then the failure status,
    ends there, and makes no call at all: in particular no download, no
    transcription request and no summarization request. *)
Theorem no_source_fails_without_remote_call audio_file gdrive_file_id :
  truthy gdrive_file_id = None →
  truthy audio_file = None →
  trace (run audio_file gdrive_file_id)
  = [ Yield "⏳ Initializing..." EmptyString;
      Yield "❌ Please upload an audio file or select one from Google Drive" EmptyString ]
  ∧ ctl (run audio_file gdrive_file_id) = Returned
  ∧ filter (λ ev, is_remote_call ev = true) (trace (run audio_file gdrive_file_id)) = [].
Proof.
  intros Hg Ha. unfold process_meeting_audio. rewrite Hg, Ha.
  split; [reflexivity | split; reflexivity].
Qed.


(** C6. If the transcription endpoint is called in a run and raises, the
    last thing the run does is yield the failure status that embeds the
    error message, and the completion endpoint is never called. *)
Theorem transcription_error_is_terminal audio_file gdrive_file_id
    model path response_format msg :
  In (Transcribe model path response_format)
     (trace (run audio_file gdrive_file_id)) →
  audio_transcriptions_create openai_client model path response_format
  = Raise msg →
  last (trace (run audio_file gdrive_file_id))
  = Some (Yield ("❌ Error: " +:+ msg) EmptyString)
  ∧ Forall (λ ev, is_summarize ev = false)
           (trace (run audio_file gdrive_file_id)).
Proof.
  intros Hin Hraise. revert Hin.
  generalize (eq_refl (trace (run audio_file gdrive_file_id))).
  generalize (trace (run audio_file gdrive_file_id)) at 1 3 4 5.
  intros tr Htr. symmetry in Htr. revert tr Htr.
  exec_pipeline.
  all: intros tr <- Hin; repeat destruct Hin as [Hin|Hin];
    try discriminate Hin; try contradiction.
  all: injection Hin as <- <- <-.
  all: try congruence.
  all: assert (msg0 = msg) as -> by congruence.
  all: split; [reflexivity | repeat constructor].
Qed.

(** C2, as the code has it. Every pair yielded before the completion
    endpoint is called has an empty [minutes_text]. From that call on a run
    yields at most two more pairs: the "Finalizing" pair and the final
    pair, which both carry the minutes document the endpoint returned for
    the transcript of this run, or an error pair with an empty
    [minutes_text] in place of either. Without that call nothing follows. *)
Theorem minutes_empty_until_summary audio_file gdrive_file_id :
  Forall (λ p, p.2 = EmptyString)
         (yields_before_summary (trace (run audio_file gdrive_file_id)))
  ∧ (yields_after_summary (trace (run audio_file gdrive_file_id)) = []
     ∧ filter (λ ev, is_summarize ev = true)
              (trace (run audio_file gdrive_file_id)) = []
     ∨ (∃ e, yields_after_summary (trace (run audio_file gdrive_file_id))
             = [("❌ Error: " +:+ e, EmptyString)])
     ∨ (∃ path transcription meeting_minutes e,
          audio_transcriptions_create openai_client AUDIO_MODEL path "text"
          = Ok transcription
          ∧ chat_completions_create openai_client "gpt-4"
              [("system", system_message); ("user", user_prompt transcription)]
              2000 "0.7"
            = Ok meeting_minutes
          ∧ yields_after_summary (trace (run audio_file gdrive_file_id))
            = [ (transcription +:+ LF +:+ LF +:+ "📝 Finalizing meeting minutes...",
                 meeting_minutes);
                ("❌ Error: " +:+ e, EmptyString) ])
     ∨ (∃ path transcription meeting_minutes,
          audio_transcriptions_create openai_client AUDIO_MODEL path "text"
          = Ok transcription
          ∧ chat_completions_create openai_client "gpt-4"
              [("system", system_message); ("user", user_prompt transcription)]
              2000 "0.7"
            = Ok meeting_minutes
          ∧ yields_after_summary (trace (run audio_file gdrive_file_id))
            = [ (transcription +:+ LF +:+ LF +:+ "📝 Finalizing meeting minutes...",
                 meeting_minutes);
                (transcription, meeting_minutes) ])).
Proof.
  generalize (eq_refl (trace (run audio_file gdrive_file_id))).
  generalize (trace (run audio_file gdrive_file_id)) at 1 3 4 5 6 7 8.
  intros tr Htr. symmetry in Htr. revert tr Htr.
  exec_pipeline.
  all: intros tr <-; simpl; split; [repeat constructor|].
  all: first [ by left
             | by right; left; eexists
             | right; right; left; do 4 eexists;
               split; [eassumption|]; split; [eassumption|]; reflexivity
             | right; right; right; do 3 eexists;
               split; [eassumption|]; split; [eassumption|]; reflexivity ].
Qed.

(** C10. With a remote identifier supplied, that is a non-empty string,
    the run is the run with no local path at all, whatever local path was
    passed along: it is not rejected, it announces the download and calls
    the download callback with that identifier. *)
Theorem remote_identifier_takes_precedence audio_file gdrive_file_id file_id :
  truthy gdrive_file_id = Some file_id →
  run audio_file gdrive_file_id = run None gdrive_file_id
  ∧ ∃ rest,
      trace (run audio_file gdrive_file_id)
      = Yield "⏳ Initializing..." EmptyString
        :: Yield "📁 Downloading from Google Drive..." EmptyString
        :: Download file_id :: rest.
Proof.
  intros Hid. unfold process_meeting_audio. rewrite Hid.
  split; [reflexivity|].
  rewrite bind_yield, trace_cons_event, trace_try_except.
  rewrite !bind_assoc, bind_yield. unfold cons_event at 1; cbn [trace].
  rewrite trace_bind. cbn [trace call app]. eauto.
Qed.
End PipelineProperties.

(** ** The pipeline on concrete runs *)

Section PipelineRuns.
Import AudioProcessor Examples.

(** C5 at the run with both sources [None]. *)
Lemma no_source_fails_without_remote_call_witness :
  truthy None = None ∧ truthy None = None
  ∧ trace (process_meeting_audio openai_ok os_ok None None download_ok None)
    = [ Yield "⏳ Initializing..." EmptyString;
        Yield "❌ Please upload an audio file or select one from Google Drive" EmptyString ].
Proof.
  split; [reflexivity | split; [reflexivity|]].
  apply (no_source_fails_without_remote_call
           openai_ok os_ok download_ok None None None); reflexivity.
Defined.

(** C6 at a local run whose transcription request times out. *)
Lemma transcription_error_is_terminal_witness :
  last (trace (process_meeting_audio openai_transcription_down os_ok
                 (Some "meeting.mp3") None download_ok None))
  = Some (Yield "❌ Error: Connection error." EmptyString)
  ∧ Forall (λ ev, is_summarize ev = false)
      (trace (process_meeting_audio openai_transcription_down os_ok
                (Some "meeting.mp3") None download_ok None)).
Proof.
  apply (transcription_error_is_terminal
           openai_transcription_down os_ok download_ok None
           (Some "meeting.mp3") None AUDIO_MODEL "meeting.mp3" "text").
  - vm_compute. tauto.
  - reflexivity.
Defined.

(** C2 fails as stated: in a run that completes, the pair yielded just
    before the final one already carries the minutes document. *)
Lemma minutes_before_final_pair_counterexample :
  ¬ Forall (λ p, p.2 = EmptyString)
      (removelast
         (yields (trace (process_meeting_audio openai_ok os_ok
                           (Some "meeting.mp3") None download_ok None)))).
Proof.
  intros H.
  apply (Forall_lookup_1 _ _ 7
           ("hello team" +:+ LF +:+ LF +:+ "📝 Finalizing meeting minutes...",
            "# Minutes")) in H; [discriminate H | reflexivity].
Qed.

(** C10 at a run with both sources set. *)
Lemma remote_identifier_takes_precedence_witness :
  truthy (Some "1AbC") = Some "1AbC"
  ∧ process_meeting_audio openai_ok os_ok (Some "meeting.mp3") (Some "1AbC")
      download_ok None
    = process_meeting_audio openai_ok os_ok None (Some "1AbC") download_ok None.
Proof.
  split; [reflexivity|].
  apply (remote_identifier_takes_precedence
           openai_ok os_ok download_ok None (Some "meeting.mp3") (Some "1AbC") "1AbC").
  reflexivity.
Defined.

(** An empty string is no identifier: passed along with a local path, it
    leaves the run to the local path, which is transcribed, and nothing is
    downloaded. *)
Lemma empty_remote_identifier_uses_local_path :
  ¬ (∃ file_id,
       In (Download file_id)
          (trace (process_meeting_audio openai_ok os_ok
                    (Some "meeting.mp3") (Some EmptyString) download_ok None)))
  ∧ In (Transcribe "whisper-1" "meeting.mp3" "text")
       (trace (process_meeting_audio openai_ok os_ok
                 (Some "meeting.mp3") (Some EmptyString) download_ok None)).
Proof.
  split.
  - intros [file_id H]. vm_compute in H. intuition discriminate.
  - vm_compute. tauto.
Qed.

End PipelineRuns.

(** * Properties of the OAuth state machine *)

Section OAuthProperties.
Import GoogleDriveService.
Variable w : World.

(** Unfolds an operation of the service down to the oracles' answers. *)
Ltac unfold_service :=
  unfold handle_oauth_callback, start_oauth_flow, reset_oauth,
    check_initial_auth_status, get_service, build_service, load_if_exists,
    load_token, dump_token, secrets_token_urlsafe, os_path_exists,
    get_oauth_states, set_oauth_states, set_token_file, call, log, try_except,
    creds_valid;
  unfold mbind, M_bind, mret, M_ret; simpl.

(** C4, as the code has it. A callback whose [error] parameter is a
    non-empty string fails with [ProviderDenied] carrying that value and
    leaves everything as it was: no call is made (no code exchange, no
    write of the token file) and the pending states are not touched. *)
Theorem callback_error_is_provider_denied (s : State) (request : Request) e :
  truthy (error request) = Some e →
  run (handle_oauth_callback w request) s = (Ok (ProviderDenied e), s).
Proof.
  intros He. unfold_service. by rewrite He.
Qed.

Lemma truthy_Some (x : option string) st : truthy x = Some st → x = Some st ∧ st ≠ EmptyString.
Proof. destruct x as [[|c r]|]; simpl; intros H; by simplify_eq. Qed.

Lemma truthy_nonempty st : st ≠ EmptyString → truthy (Some st) = Some st.
Proof. by destruct st. Qed.

Lemma callback_outcome (s : State) (request : Request) :
  ∃ page,
    (run (handle_oauth_callback w request) s).1 = Ok page
    ∧ (page = Authorized →
       ∃ st, truthy (state request) = Some st
             ∧ is_Some (truthy (code request))
             ∧ is_Some (oauth_states s !! st)
             ∧ oauth_states (run (handle_oauth_callback w request) s).2
               = delete st (oauth_states s)
             ∧ oauth_states (run (handle_oauth_callback w request) s).2 !! st = None)
    ∧ (∀ st, state request = Some st → oauth_states s !! st = None →
         page ≠ Authorized
         ∧ (run (handle_oauth_callback w request) s).2 = s
         ∧ (truthy (error request) = None →
            is_Some (truthy (code request)) →
            st ≠ EmptyString →
            page = StateMismatch)).
Proof.
  unfold_service.
  destruct (truthy (error request)) as [e|] eqn:He; simpl.
  { eexists; split; [done|]. split; [done|]. intros st _ _. by repeat split. }
  destruct (truthy (code request)) as [c|] eqn:Hc; simpl.
  2:{ eexists; split; [done|]. split; [done|]. intros st _ _.
      repeat split; try done; try by intros _ [? ?]. }
  destruct (truthy (state request)) as [st'|] eqn:Hst; simpl.
  2:{ eexists; split; [done|]. split; [done|]. intros st Hreq _.
      repeat split; try done; intros _ _ Hne;
        rewrite Hreq, truthy_nonempty in Hst; done. }
  apply truthy_Some in Hst as [Hreq Hne].
  case_bool_decide as Hlook; simpl.
  { eexists; split; [done|]. split; [done|]. intros st _ _. by repeat split. }
  assert (∀ st, state request = Some st → oauth_states s !! st = None → False)
    as Hpending by (intros st ? ?; congruence).
  destruct (from_client_secrets_file w); simpl;
    [| eexists; split; [done|]; split; [done|]; intros; exfalso; eauto].
  destruct (fetch_token w c) as [creds|]; simpl;
    [| eexists; split; [done|]; split; [done|]; intros; exfalso; eauto].
  destruct (open_wb w); simpl;
    [| eexists; split; [done|]; split; [done|]; intros; exfalso; eauto].
  destruct (pickle_dump w creds); simpl;
    [| eexists; split; [done|]; split; [done|]; intros; exfalso; eauto].
  eexists; split; [done|]. split; [| intros; exfalso; eauto].
  intros _. exists st'.
  repeat split; eauto.
  - destruct (oauth_states s !! st') eqn:E; [eauto | done].
  - apply lookup_delete_eq.
Qed.

(** A callback whose state is not pending (never issued, already used, or
    missing) changes nothing and is answered by the first check it fails. *)
Lemma callback_without_pending_state (s : State) (request : Request) :
  (∀ st, state request = Some st → oauth_states s !! st = None) →
  run (handle_oauth_callback w request) s
  = (Ok match truthy (error request), truthy (code request),
              truthy (state request) with
        | Some e, _, _ => ProviderDenied e
        | None, Some _, Some _ => StateMismatch
        | None, _, _ => MalformedCallback
        end, s).
Proof.
  intros Hnp. unfold_service.
  destruct (truthy (error request)) as [e|]; simpl; [done|].
  destruct (truthy (code request)) as [c|]; simpl; [|done].
  destruct (truthy (state request)) as [st|] eqn:Hst; simpl; [|done].
  apply truthy_Some in Hst as [Hreq _].
  by rewrite (bool_decide_eq_true_2 _ (Hnp st Hreq)).
Qed.

(** C1, as the code has it. The callback always answers with a page. It
    answers [Authorized] only for a non-empty [state] that is pending and a
    non-empty [code]; that state is then no longer pending, and no later
    callback with the same [state] is answered [Authorized]. A callback
    whose [state] is not pending, be it unknown, used or missing, fails and
    leaves the whole service state as it was: nothing is exchanged, the
    token file is not written and the pending states are unchanged. Its
    page is [ProviderDenied] when the request carries a non-empty [error],
    [MalformedCallback] when it carries none and [code] or [state] is
    missing or empty, and [StateMismatch] otherwise. *)
Theorem state_token_single_use (s : State) (request : Request) :
  ∃ page,
    (run (handle_oauth_callback w request) s).1 = Ok page
    ∧ (page = Authorized →
       ∃ st, truthy (state request) = Some st
             ∧ is_Some (truthy (code request))
             ∧ is_Some (oauth_states s !! st)
             ∧ oauth_states (run (handle_oauth_callback w request) s).2
               = delete st (oauth_states s)
             ∧ oauth_states (run (handle_oauth_callback w request) s).2 !! st = None)
    ∧ (∀ st, state request = Some st → oauth_states s !! st = None →
         page ≠ Authorized
         ∧ (run (handle_oauth_callback w request) s).2 = s
         ∧ (truthy (error request) = None →
            is_Some (truthy (code request)) →
            st ≠ EmptyString →
            page = StateMismatch))
    ∧ ((∀ st, state request = Some st → oauth_states s !! st = None) →
       (run (handle_oauth_callback w request) s).2 = s
       ∧ page ≠ Authorized
       ∧ (∀ e, truthy (error request) = Some e → page = ProviderDenied e)
       ∧ (truthy (error request) = None →
          truthy (code request) = None ∨ truthy (state request) = None →
          page = MalformedCallback)
       ∧ (truthy (error request) = None →
          is_Some (truthy (code request)) →
          is_Some (truthy (state request)) →
          page = StateMismatch))
    ∧ (page = Authorized →
       ∀ request', state request' = state request →
         (run (handle_oauth_callback w request')
              (run (handle_oauth_callback w request) s).2).1
         ≠ Ok Authorized).
Proof.
  destruct (callback_outcome s request) as (page & Hpage & Hauth & Hunknown).
  exists page. do 3 (split; [done|]). split.
  - intros Hnp. pose proof (callback_without_pending_state s request Hnp) as Hrun.
    rewrite Hrun in Hpage |- *. simpl in Hpage. injection Hpage as <-.
    split; [done|].
    destruct (truthy (error request)) as [e|];
      [|destruct (truthy (code request)) as [c|];
        [destruct (truthy (state request)) as [st|]|]];
      (split; [done|]); repeat split; intros; simplify_eq; try done;
      repeat match goal with
             | H : is_Some None |- _ => by destruct H
             | H : _ ∨ _ |- _ => destruct H; simplify_eq
             end.
  - intros Hyes request' Hsame.
    destruct (Hauth Hyes) as (st & Hst & _ & _ & _ & Hgone).
    apply truthy_Some in Hst as [Hreq _].
    rewrite (callback_without_pending_state _ request').
    + simpl. by destruct (truthy (error request')), (truthy (code request')),
               (truthy (state request')).
    + intros st' Hst'. rewrite Hsame, Hreq in Hst'. by simplify_eq.
Qed.

(** C7. When the token file holds valid credentials,
    [start_oauth_flow] creates no session: the pending states, the token
    file and the number of random tokens drawn are unchanged, and the only
    call it can have made is the read of the token file. With the client
    credentials configured it returns [AlreadyAuthorized]. *)
Theorem start_when_authorized_creates_no_session (s : State) content creds :
  token_file s = Some content →
  open_rb w = Ok () →
  pickle_load w content = Ok (Some creds) →
  valid creds = true →
  oauth_states (run (start_oauth_flow w) s).2 = oauth_states s
  ∧ draws (run (start_oauth_flow w) s).2 = draws s
  ∧ token_file (run (start_oauth_flow w) s).2 = token_file s
  ∧ (calls (run (start_oauth_flow w) s).2 = calls s
     ∨ calls (run (start_oauth_flow w) s).2 = calls s ++ [ReadToken])
  ∧ (truthy (GOOGLE_CLIENT_ID w) ≠ None →
     truthy (GOOGLE_CLIENT_SECRET w) ≠ None →
     (run (start_oauth_flow w) s).1 = Ok AlreadyAuthorized).
Proof.
  intros Hfile Hopen Hload Hvalid. unfold_service.
  destruct (decide (truthy (GOOGLE_CLIENT_ID w) = None)) as [Hid|Hid].
  { rewrite (bool_decide_eq_true_2 _ Hid). simpl. by repeat split; auto. }
  rewrite (bool_decide_eq_false_2 _ Hid). simpl.
  destruct (decide (truthy (GOOGLE_CLIENT_SECRET w) = None)) as [Hsec|Hsec].
  { rewrite (bool_decide_eq_true_2 _ Hsec). simpl. by repeat split; auto. }
  rewrite (bool_decide_eq_false_2 _ Hsec). simpl.
  repeat (progress (rewrite ?Hfile, ?Hopen, ?Hload, ?Hvalid; simpl)).
  by repeat split; auto.
Qed.

(** C9, as the code has it. When there is no token file, or its removal
    does not raise, [reset_oauth] succeeds, leaves no token file and no
    pending state, and [check_initial_auth_status] then reports
    [Unauthorized]. *)
Theorem reset_then_status_unauthorized (s : State) :
  token_file s = None ∨ os_remove w = Ok () →
  (run (reset_oauth w) s).1 = Ok ResetDone
  ∧ token_file (run (reset_oauth w) s).2 = None
  ∧ oauth_states (run (reset_oauth w) s).2 = ∅
  ∧ (run (check_initial_auth_status w) (run (reset_oauth w) s).2).1
    = Ok Unauthorized.
Proof.
  intros H. unfold_service.
  destruct (token_file s) as [content|] eqn:Hfile; simpl.
  - destruct H as [H|H]; [done|]. rewrite H. simpl. by repeat split.
  - rewrite ?Hfile. simpl. by repeat split.
Qed.

(** C3, as the code has it. A token file that cannot be deserialized is
    not treated as absent. [check_initial_auth_status] catches the error
    and reports it as an error status, which is neither [Unauthorized] nor
    [AlreadyAuthorized]; [start_oauth_flow] reports an error instead of
    starting an authorization; [get_service] lets the exception out to its
    caller, and [browse_google_drive] turns it into an error result. None
    of the four changes the token file, the pending states or the number
    of random tokens drawn. *)
Theorem undeserializable_token_is_reported (s : State) content msg fuel :
  token_file s = Some content →
  open_rb w = Ok () →
  pickle_load w content = Raise msg →
  (run (check_initial_auth_status w) s).1
  = Ok ("❌ Error checking authorization status: " +:+ msg)
  ∧ (run (get_service w) s).1 = Raise msg
  ∧ (run (browse_google_drive w fuel) s).1
    = Ok (Some ([], "❌ Error browsing Google Drive: " +:+ msg))
  ∧ (truthy (GOOGLE_CLIENT_ID w) ≠ None →
     truthy (GOOGLE_CLIENT_SECRET w) ≠ None →
     (run (start_oauth_flow w) s).1
     = Ok ("❌ Error starting authorization: " +:+ msg)
     ∧ oauth_states (run (start_oauth_flow w) s).2 = oauth_states s)
  ∧ token_file (run (check_initial_auth_status w) s).2 = token_file s
  ∧ token_file (run (get_service w) s).2 = token_file s
  ∧ token_file (run (start_oauth_flow w) s).2 = token_file s
  ∧ token_file (run (browse_google_drive w fuel) s).2 = token_file s
  ∧ oauth_states (run (check_initial_auth_status w) s).2 = oauth_states s
  ∧ oauth_states (run (get_service w) s).2 = oauth_states s
  ∧ oauth_states (run (start_oauth_flow w) s).2 = oauth_states s
  ∧ oauth_states (run (browse_google_drive w fuel) s).2 = oauth_states s
  ∧ draws (run (check_initial_auth_status w) s).2 = draws s
  ∧ draws (run (get_service w) s).2 = draws s
  ∧ draws (run (start_oauth_flow w) s).2 = draws s
  ∧ draws (run (browse_google_drive w fuel) s).2 = draws s.
Proof.
  intros Hfile Hopen Hload.
  unfold browse_google_drive. unfold_service.
  destruct (bool_decide (truthy (GOOGLE_CLIENT_ID w) = None)) eqn:Hid;
    destruct (bool_decide (truthy (GOOGLE_CLIENT_SECRET w) = None)) eqn:Hsec;
    simpl; repeat (progress (rewrite ?Hfile, ?Hopen, ?Hload; simpl));
    (do 3 (split; [done|])); (split; [|done]);
    intros Hid' Hsec';
    try (by apply bool_decide_eq_true_1 in Hid);
    try (by apply bool_decide_eq_true_1 in Hsec); done.
Qed.

End OAuthProperties.

(** ** The OAuth state machine on concrete runs *)

Section OAuthRuns.
Import GoogleDriveService Examples.

(** C4 at the callback of a denied consent. *)
Lemma callback_error_is_provider_denied_witness :
  run (handle_oauth_callback world_ok
         {| code := None; state := Some "state-0"; error := Some "access_denied" |})
      state_pending
  = (Ok (ProviderDenied "access_denied"), state_pending).
Proof.
  apply (callback_error_is_provider_denied world_ok state_pending
           {| code := None; state := Some "state-0"; error := Some "access_denied" |}
           "access_denied").
  reflexivity.
Defined.

(** C4 fails as stated: an [error] parameter that is present but empty
    does not stop the callback, which exchanges the code, writes the token
    file and consumes the pending state. *)
Lemma empty_error_parameter_counterexample :
  let request := {| code := Some "4/0Ab"; state := Some "state-0";
                    error := Some EmptyString |} in
  let r := run (handle_oauth_callback world_ok request) state_pending in
  r.1 = Ok Authorized
  ∧ token_file r.2 = Some [Byte.x80; Byte.x04]
  ∧ oauth_states r.2 !! "state-0" = None
  ∧ In (FetchToken "4/0Ab") (calls r.2).
Proof. vm_compute. tauto. Qed.

(** C1 fails as stated: a callback whose state was never issued is
    answered with [ProviderDenied] when it carries an [error], and with
    [MalformedCallback] when it carries no [code], not with
    [StateMismatch]. *)
Lemma unknown_state_not_state_mismatch_counterexample :
  oauth_states state_pending !! "forged" = None
  ∧ (run (handle_oauth_callback world_ok
            {| code := Some "4/0Ab"; state := Some "forged";
               error := Some "access_denied" |}) state_pending).1
    = Ok (ProviderDenied "access_denied")
  ∧ (run (handle_oauth_callback world_ok
            {| code := None; state := Some "forged"; error := None |})
         state_pending).1
    = Ok MalformedCallback
  ∧ ProviderDenied "access_denied" ≠ StateMismatch
  ∧ MalformedCallback ≠ StateMismatch.
Proof. vm_compute. repeat split; discriminate. Qed.

(** C7 at a process with a valid token on disk. *)
Lemma start_when_authorized_creates_no_session_witness :
  (run (start_oauth_flow world_ok) state_authorized).1 = Ok AlreadyAuthorized
  ∧ oauth_states (run (start_oauth_flow world_ok) state_authorized).2
    = oauth_states state_authorized.
Proof.
  pose proof (start_when_authorized_creates_no_session world_ok state_authorized
                [Byte.x80; Byte.x04] fresh_creds
                eq_refl eq_refl eq_refl eq_refl) as (Hstates & _ & _ & _ & Hmsg).
  split; [apply Hmsg; discriminate | exact Hstates].
Defined.

(** Outside the configured application, which the startup check rules
    out: with [GOOGLE_CLIENT_ID] unset the configuration check comes first
    and its error is returned although valid credentials are stored. *)
Lemma unconfigured_start_reports_configuration :
  (run (check_initial_auth_status world_unconfigured) state_authorized).1
  = Ok AlreadyAuthorized
  ∧ (run (start_oauth_flow world_unconfigured) state_authorized).1
    = Ok ConfigurationError
  ∧ ConfigurationError ≠ AlreadyAuthorized.
Proof. vm_compute. repeat split; discriminate. Qed.

(** C9 at an authorized process whose token file can be removed. *)
Lemma reset_then_status_unauthorized_witness :
  (run (reset_oauth world_ok) state_authorized).1 = Ok ResetDone
  ∧ (run (check_initial_auth_status world_ok)
         (run (reset_oauth world_ok) state_authorized).2).1
    = Ok Unauthorized.
Proof.
  pose proof (reset_then_status_unauthorized world_ok state_authorized
                (or_intror eq_refl)) as (Hmsg & _ & _ & Hstatus).
  split; [exact Hmsg | exact Hstatus].
Defined.

(** C9 fails as stated: when the token file cannot be removed,
    [reset_oauth] reports an error, the pending states are not cleared,
    and the status check still reports the stored authorization. *)
Lemma reset_failure_counterexample :
  let r := run (reset_oauth world_readonly) state_authorized in
  r.1 = Ok "❌ Error resetting authorization: [Errno 13] Permission denied: 'token.pickle'"
  ∧ token_file r.2 = token_file state_authorized
  ∧ oauth_states r.2 !! "state-0" = Some true
  ∧ (run (check_initial_auth_status world_readonly) r.2).1 = Ok AlreadyAuthorized
  ∧ AlreadyAuthorized ≠ Unauthorized.
Proof. vm_compute. repeat split; discriminate. Qed.

(** C3 at an empty token file. *)
Lemma undeserializable_token_is_reported_witness :
  (run (check_initial_auth_status world_ok) state_corrupt).1
  = Ok "❌ Error checking authorization status: Ran out of input"
  ∧ (run (get_service world_ok) state_corrupt).1 = Raise "Ran out of input".
Proof.
  pose proof (undeserializable_token_is_reported world_ok state_corrupt
                [] "Ran out of input" 0 eq_refl eq_refl eq_refl)
    as (Hstatus & Hservice & _).
  split; [exact Hstatus | exact Hservice].
Defined.

(** C3 fails as stated: on a token file that cannot be deserialized the
    status check does not report [Unauthorized], [get_service] raises, and
    an authorization cannot be started as it can without a token file. *)
Lemma corrupt_token_not_absent_counterexample :
  (run (check_initial_auth_status world_ok) state_corrupt).1 ≠ Ok Unauthorized
  ∧ (run (check_initial_auth_status world_ok) state_initial).1 = Ok Unauthorized
  ∧ (run (get_service world_ok) state_corrupt).1 = Raise "Ran out of input"
  ∧ (run (get_service world_ok) state_initial).1
    = Ok (None, Some "Please authorize Google Drive access first")
  ∧ (run (start_oauth_flow world_ok) state_corrupt).1
    = Ok "❌ Error starting authorization: Ran out of input"
  ∧ oauth_states (run (start_oauth_flow world_ok) state_corrupt).2 = ∅.
Proof. vm_compute. repeat split; discriminate. Qed.

End OAuthRuns.

(** * Properties of the Drive browser *)

Section BrowseProperties.
Import GoogleDriveService.
Variable service : Service.

Lemma add_files_spec files acc :
  merged acc →
  merged (add_files files acc)
  ∧ (∀ file, file ∈ files → id file ∈ id <$> (add_files files acc).1)
  ∧ (∀ file, file ∈ (add_files files acc).1 → file ∈ acc.1 ∨ file ∈ files)
  ∧ (∀ file, file ∈ acc.1 → file ∈ (add_files files acc).1).
Proof.
  unfold add_files. revert acc.
  induction files as [|file files IH]; intros [all seen] Hacc; simpl.
  { repeat split; try apply Hacc; auto. intros ? H; inversion H. }
  destruct Hacc as [Hnodup Hseen]; simpl in *.
  case_bool_decide as Hin.
  - destruct (IH (all, seen)) as (Hm & Hids & Hfrom & Hkeep); [by split|].
    repeat split; try apply Hm.
    + intros f [->|Hf]%elem_of_cons; [|by apply Hids].
      apply Hseen in Hin. apply list_elem_of_fmap in Hin as (f' & Hid & Hf').
      rewrite Hid. apply list_elem_of_fmap. exists f'. split; [done|by apply Hkeep].
    + intros f Hf. destruct (Hfrom f Hf); [by left|right; by right].
    + done.
  - destruct (IH (all ++ [file], seen ∪ {[id file]})) as (Hm & Hids & Hfrom & Hkeep).
    { split; simpl.
      - rewrite fmap_app. apply NoDup_app. repeat split; [done| |apply NoDup_singleton].
        intros i Hi [->|[]%elem_of_nil]%elem_of_cons. by apply Hin, Hseen.
      - intros i. rewrite fmap_app, elem_of_union, elem_of_singleton, elem_of_app.
        simpl. rewrite list_elem_of_singleton, Hseen. done. }
    repeat split; try apply Hm.
    + intros f [->|Hf]%elem_of_cons; [|by apply Hids].
      apply list_elem_of_fmap. exists file. split; [done|].
      apply Hkeep. simpl. apply elem_of_app. right. by apply list_elem_of_singleton.
    + intros f Hf. destruct (Hfrom f Hf) as [H|H]; [|right; by right].
      simpl in H. apply elem_of_app in H as [H|H%list_elem_of_singleton]; [by left|].
      subst. right. by left.
    + intros f Hf. apply Hkeep. simpl. apply elem_of_app. by left.
Qed.

Lemma collect_audio_files_spec queries acc :
  merged acc →
  merged (collect_audio_files service queries acc)
  ∧ (∀ query files file,
       query ∈ queries →
       files_list service query 20
         "files(id, name, mimeType, webViewLink, parents)" = Ok files →
       file ∈ files →
       id file ∈ id <$> (collect_audio_files service queries acc).1)
  ∧ (∀ file, file ∈ (collect_audio_files service queries acc).1 →
       file ∈ acc.1
       ∨ ∃ query files,
           query ∈ queries
           ∧ files_list service query 20
               "files(id, name, mimeType, webViewLink, parents)" = Ok files
           ∧ file ∈ files)
  ∧ (∀ file, file ∈ acc.1 → file ∈ (collect_audio_files service queries acc).1).
Proof.
  unfold collect_audio_files. revert acc.
  induction queries as [|query queries IH]; intros acc Hacc; simpl.
  { repeat split; try apply Hacc; auto. intros ? ? ? H; inversion H. }
  destruct (files_list service query 20 _) as [files|msg] eqn:Hlist.
  - destruct (add_files_spec files acc Hacc) as (Hm & Hids & Hfrom & Hkeep).
    destruct (IH _ Hm) as (Hm' & Hids' & Hfrom' & Hkeep').
    repeat split; try apply Hm'.
    + intros q fs f [->|Hq]%elem_of_cons Hfs Hf; [|by eapply Hids'].
      rewrite Hlist in Hfs. injection Hfs as <-.
      apply Hids in Hf. apply list_elem_of_fmap in Hf as (f' & Hid & Hf').
      rewrite Hid. apply list_elem_of_fmap. exists f'. split; [done|by apply Hkeep'].
    + intros f Hf. destruct (Hfrom' f Hf) as [H|(q & fs & Hq & Hfs & Hin)].
      * destruct (Hfrom f H) as [?|?]; [by left|].
        right. exists query, files. repeat split; [by left|done|done].
      * right. exists q, fs. repeat split; [by right|done|done].
    + intros f Hf. by apply Hkeep', Hkeep.
  - destruct (IH _ Hacc) as (Hm' & Hids' & Hfrom' & Hkeep').
    repeat split; try apply Hm'.
    + intros q fs f [->|Hq]%elem_of_cons Hfs Hf; [congruence|by eapply Hids'].
    + intros f Hf. destruct (Hfrom' f Hf) as [H|(q & fs & Hq & Hfs & Hin)];
        [by left|]. right. exists q, fs. repeat split; [by right|done|done].
    + done.
Qed.




End BrowseProperties.

Section BreakdownProperties.
Import GoogleDriveService.



End BreakdownProperties.

Section BreakdownRefinement.
Import GoogleDriveService.










End BreakdownRefinement.

Section BrowseTheorem.
Import GoogleDriveService.
Variable w : World.



End BrowseTheorem.

Section BrowseRuns.
Import GoogleDriveService Examples.


End BrowseRuns.

(** ** Further properties of the pipeline *)

Section PipelineBehaviour.
Import AudioProcessor.
Variable openai_client : OpenAI.
Variable download_callback : string → result (option string * string).

Abbreviation pipeline os audio_file gdrive_file_id progress_callback :=
  (process_meeting_audio openai_client os audio_file gdrive_file_id
     download_callback progress_callback).

Lemma ctl_cons_event {A} ev (g : gen A) : ctl (cons_event ev g) = ctl g.
Proof. reflexivity. Qed.

Lemma gen_eq {A} (g : gen A) tr c : trace g = tr → ctl g = c → g = Gen tr c.
Proof. destruct g. simpl. by intros -> ->. Qed.

Lemma try_ret (h : string → gen unit) : try_except (mret ()) h = mret ().
Proof. reflexivity. Qed.

(** One step of the run inside the [try]; outcomes already known are
    followed, unknown ones are split. *)
Ltac run_body b :=
  lazymatch b with
  | ?m ≫= _ =>
      lazymatch m with
      | _ ≫= _ => rewrite bind_assoc
      | yield _ _ => rewrite bind_yield
      | mret _ => rewrite bind_ret
      | return_ => rewrite bind_return
      | cons_event _ _ => rewrite bind_cons_event
      | call _ (Ok _) => rewrite bind_call_ok
      | call _ (Raise _) => rewrite bind_call_raise
      | call _ (match ?x with _ => _ end) => destruct x eqn:?
      | call _ ?r =>
          first [ match goal with H : r = _ |- _ => rewrite H end
                | destruct r eqn:?;
                  [rewrite bind_call_ok | rewrite bind_call_raise] ]
      | match ?x with _ => _ end => destruct x eqn:?
      end
  | cons_event _ _ => rewrite try_cons_event, ?trace_cons_event, ?ctl_cons_event
  | Gen [_] (Raised _) => rewrite try_raised, ?trace_cons_event, ?ctl_cons_event
  | return_ => rewrite try_returned
  | yield _ _ => rewrite try_yield
  | mret () => rewrite try_ret
  end; cbv beta match.

Ltac run_step :=
  lazymatch goal with
  | |- context [try_except ?b _] => run_body b
  end.

Ltac run_pipeline :=
  unfold process_meeting_audio, _generate_meeting_minutes, progress;
  rewrite bind_yield, ?trace_cons_event, ?ctl_cons_event;
  repeat run_step;
  unfold yield, return_; cbn [trace ctl].

(** X2. A download that reports failure (no path, an error text) ends the run:
    the error text is shown and nothing is measured, opened, transcribed or
    summarized. *)
Theorem download_failure_is_terminal os audio_file gdrive_file_id file_id error
    progress_callback :
  truthy gdrive_file_id = Some file_id →
  download_callback file_id = Ok (None, error) →
  pipeline os audio_file gdrive_file_id progress_callback
  = Gen [ Yield "⏳ Initializing..." EmptyString;
          Yield "📁 Downloading from Google Drive..." EmptyString;
          Download file_id;
          Yield ("❌ Error downloading from Google Drive: " +:+ error) EmptyString ]
        Returned.
Proof.
  intros Hid Hdownload. apply gen_eq; unfold process_meeting_audio;
    rewrite Hid; cbv beta match; rewrite Hdownload;
    rewrite bind_yield, ?trace_cons_event, ?ctl_cons_event;
    repeat run_step; reflexivity.
Qed.

(** X3. A local file that can be measured, opened, transcribed and summarized
    gives this run, with no progress callback: nine pairs, the minutes in
    the last two, one transcription request and one completion request. *)
Theorem local_run_completes os audio_file gdrive_file_id path size
    transcription meeting_minutes :
  truthy gdrive_file_id = None →
  truthy audio_file = Some path →
  os_path_getsize os path = Ok size →
  open_rb os path = Ok () →
  audio_transcriptions_create openai_client AUDIO_MODEL path "text"
  = Ok transcription →
  chat_completions_create openai_client "gpt-4"
    [("system", system_message); ("user", user_prompt transcription)] 2000 "0.7"
  = Ok meeting_minutes →
  pipeline os audio_file gdrive_file_id None
  = Gen [ Yield "⏳ Initializing..." EmptyString;
          Yield "📁 Using local file" EmptyString;
          GetSize path;
          Yield "📁 File loaded successfully" EmptyString;
          Yield "🎙️ Starting audio transcription..." EmptyString;
          OpenRb path;
          Yield "🔄 Transcribing audio (this may take a few minutes)..." EmptyString;
          Transcribe "whisper-1" path "text";
          Yield transcription EmptyString;
          Yield (transcription +:+ LF +:+ LF +:+ "🤖 Generating meeting minutes...")
                EmptyString;
          ChatCompletion "gpt-4"
            [("system", system_message); ("user", user_prompt transcription)]
            2000 "0.7";
          Yield (transcription +:+ LF +:+ LF +:+ "📝 Finalizing meeting minutes...")
                meeting_minutes;
          Yield transcription meeting_minutes ]
        (Normal ()).
Proof.
  intros Hid Hfile Hsize Hopen Htranscribe Hchat.
  apply gen_eq;
    unfold process_meeting_audio, _generate_meeting_minutes, progress;
    rewrite Hid, Hfile; cbv beta match;
    rewrite bind_yield, ?trace_cons_event, ?ctl_cons_event;
    repeat run_step; reflexivity.
Qed.


Lemma same_but_progress_bind {A B} (m1 m2 : gen A) (f1 f2 : A → gen B) :
  same_but_progress m1 m2 →
  (∀ a, same_but_progress (f1 a) (f2 a)) →
  same_but_progress (m1 ≫= f1) (m2 ≫= f2).
Proof.
  unfold same_but_progress. intros [Htr Hctl] Hf.
  rewrite !trace_bind, filter_app, Htr.
  destruct m1 as [tr1 c1], m2 as [tr2 c2]; simpl in *. subst c2.
  destruct c1 as [a| |]; unfold mbind, gen_bind; simpl;
    [|by rewrite filter_nil..].
  destruct (Hf a) as [-> Hc]. split; [done|].
  by destruct (f1 a), (f2 a).
Qed.

Lemma same_but_progress_try {A} (b1 b2 : gen A) (h : string → gen A) :
  same_but_progress b1 b2 →
  (∀ e, same_but_progress (h e) (h e)) →
  same_but_progress (try_except b1 h) (try_except b2 h).
Proof.
  unfold same_but_progress. intros [Htr Hctl] Hh.
  rewrite !trace_try_except, filter_app, Htr.
  destruct b1 as [tr1 c1], b2 as [tr2 c2]; simpl in *. subst c2.
  destruct c1 as [a|msg|]; unfold try_except; simpl;
    [by rewrite filter_nil| |by rewrite filter_nil].
  destruct (Hh msg) as [-> _]. split; [done|]. by destruct (h msg).
Qed.

Lemma same_but_progress_call {A} ev (r : result A) :
  is_progress ev = false → same_but_progress (call ev r) (call ev r).
Proof.
  intros H. split; [|done]. simpl. rewrite filter_cons.
  by destruct (decide _).
Qed.

Lemma same_but_progress_step cb value desc :
  cb value desc = Ok () →
  same_but_progress (progress (Some cb) value desc) (progress None value desc).
Proof. intros H. unfold progress. rewrite H. by split. Qed.

Ltac same_but_progress :=
  repeat first
    [ apply same_but_progress_bind
    | apply same_but_progress_try
    | by apply same_but_progress_step
    | by apply same_but_progress_call
    | by split
    | intros ?
    | match goal with
      | |- same_but_progress (match ?x with _ => _ end) _ => destruct x
      end ].

(** X6. A progress callback that does not raise only adds its own events: with
    them left out, the run is the run without a callback. The pairs yielded
    and the requests made do not depend on it. *)
Theorem progress_callback_is_transparent os audio_file gdrive_file_id cb :
  (∀ value desc, cb value desc = Ok ()) →
  same_but_progress (pipeline os audio_file gdrive_file_id (Some cb))
                    (pipeline os audio_file gdrive_file_id None).
Proof.
  intros Hcb. unfold process_meeting_audio, _generate_meeting_minutes.
  same_but_progress.
Qed.

Lemma split_at_here {A} (x : A) l (P : list A → list A → Prop) :
  P [] l → ∃ before after, x :: l = before ++ x :: after ∧ P before after.
Proof. intros H. by exists [], l. Qed.

Lemma split_at_later {A} (e x : A) l (P : list A → list A → Prop) :
  (∃ before after, l = before ++ x :: after ∧ P (e :: before) after) →
  ∃ before after, e :: l = before ++ x :: after ∧ P before after.
Proof. intros (before & after & -> & H). by exists (e :: before), after. Qed.

(** X7. Whenever the completion endpoint is called, the transcription
    endpoint was called earlier in the same run and answered: the trace up
    to the completion request contains the transcription request. The
    completion request is for [gpt-4] with the fixed system message and the
    prompt that ends in that transcript, and it is the only completion
    request of the run. *)
Theorem completion_only_after_transcription os audio_file gdrive_file_id
    progress_callback model messages max_tokens temperature :
  ChatCompletion model messages max_tokens temperature
  ∈ trace (pipeline os audio_file gdrive_file_id progress_callback) →
  ∃ before after,
    trace (pipeline os audio_file gdrive_file_id progress_callback)
    = before ++ ChatCompletion model messages max_tokens temperature :: after
    ∧ ∃ path transcription,
        Transcribe "whisper-1" path "text" ∈ before
        ∧ audio_transcriptions_create openai_client AUDIO_MODEL path "text"
          = Ok transcription
        ∧ Transcribe "whisper-1" path "text"
          ∈ trace (pipeline os audio_file gdrive_file_id progress_callback)
        ∧ model = "gpt-4"
        ∧ messages = [("system", system_message); ("user", user_prompt transcription)]
        ∧ max_tokens = 2000
        ∧ temperature = "0.7"
        ∧ filter (λ ev, is_summarize ev = true) (before ++ after) = []
        ∧ length (filter (λ ev, is_summarize ev = true)
                    (trace (pipeline os audio_file gdrive_file_id progress_callback)))
          = 1.
Proof.
  remember (trace (pipeline os audio_file gdrive_file_id progress_callback))
    as tr eqn:Htr.
  revert Htr.
  unfold process_meeting_audio, _generate_meeting_minutes, progress.
  rewrite bind_yield, trace_cons_event.
  destruct progress_callback as [cb|];
    repeat run_step;
    unfold yield, return_; cbn [trace];
    intros -> H;
    repeat (apply elem_of_cons in H as [H|H];
            [first [discriminate H | injection H as -> -> -> ->]|]);
    try (by apply elem_of_nil in H);
    repeat first [apply split_at_here | apply split_at_later];
    (do 2 eexists; split;
       [repeat first [apply list_elem_of_here | apply list_elem_of_further]|];
     split; [eassumption|]; split;
       [repeat first [apply list_elem_of_here | apply list_elem_of_further]|];
     repeat split; reflexivity).
Qed.

(** X8. Every run in which each collaborator returns or raises an
    [Exception] (nothing that only [BaseException] covers) yields at least
    once, and its last pair is either a failure status, marked by the cross
    and with empty minutes, or the transcript the transcription endpoint
    returned together with the minutes the completion endpoint returned
    for it. *)
Theorem run_ends_complete_or_failed os audio_file gdrive_file_id
    progress_callback :
  ∃ status_text minutes_text,
    last (yields (trace (pipeline os audio_file gdrive_file_id progress_callback)))
    = Some (status_text, minutes_text)
    ∧ ((∃ detail, status_text = "❌" +:+ detail) ∧ minutes_text = EmptyString
       ∨ ∃ path,
           audio_transcriptions_create openai_client AUDIO_MODEL path "text"
           = Ok status_text
           ∧ chat_completions_create openai_client "gpt-4"
               [("system", system_message); ("user", user_prompt status_text)]
               2000 "0.7"
             = Ok minutes_text).
Proof.
  unfold process_meeting_audio, _generate_meeting_minutes, progress.
  rewrite bind_yield, trace_cons_event.
  destruct progress_callback as [cb|];
    repeat run_step;
    unfold yield, return_; cbn [trace yields last];
    do 2 eexists; (split; [reflexivity|]);
    first [ left; split; [eexists; reflexivity | reflexivity]
          | right; eexists; split; eassumption ].
Qed.

End PipelineBehaviour.

(** ** The further pipeline properties on concrete runs *)

Section PipelineBehaviourRuns.
Import AudioProcessor Examples.

Lemma download_failure_is_terminal_witness :
  truthy (Some "1AbC") = Some "1AbC"
  ∧ download_unauthorized "1AbC"
    = Ok (None, "Please authorize Google Drive access first")
  ∧ process_meeting_audio openai_ok os_ok (Some "meeting.mp3") (Some "1AbC")
      download_unauthorized (Some progress_ok)
    = Gen [ Yield "⏳ Initializing..." EmptyString;
            Yield "📁 Downloading from Google Drive..." EmptyString;
            Download "1AbC";
            Yield "❌ Error downloading from Google Drive: Please authorize Google Drive access first"
                  EmptyString ]
          Returned.
Proof.
  split; [reflexivity|]. split; [reflexivity|].
  apply (download_failure_is_terminal openai_ok download_unauthorized os_ok
           (Some "meeting.mp3") (Some "1AbC") "1AbC"
           "Please authorize Google Drive access first" (Some progress_ok));
    reflexivity.
Defined.

Lemma local_run_completes_witness :
  last (yields (trace (process_meeting_audio openai_ok os_ok
                         (Some "meeting.mp3") None download_ok None)))
  = Some ("hello team", "# Minutes").
Proof.
  rewrite (local_run_completes openai_ok download_ok os_ok
             (Some "meeting.mp3") None "meeting.mp3" 1024 "hello team" "# Minutes"
             eq_refl eq_refl eq_refl eq_refl eq_refl eq_refl).
  reflexivity.
Defined.


Lemma progress_callback_is_transparent_witness :
  (∀ value desc, progress_ok value desc = Ok ())
  ∧ same_but_progress
      (process_meeting_audio openai_ok os_ok (Some "meeting.mp3") None
         download_ok (Some progress_ok))
      (process_meeting_audio openai_ok os_ok (Some "meeting.mp3") None
         download_ok None).
Proof.
  split; [reflexivity|].
  apply (progress_callback_is_transparent openai_ok download_ok os_ok
           (Some "meeting.mp3") None progress_ok).
  reflexivity.
Defined.

Lemma completion_only_after_transcription_witness :
  ChatCompletion "gpt-4"
    [("system", system_message); ("user", user_prompt "hello team")] 2000 "0.7"
  ∈ trace (process_meeting_audio openai_ok os_ok (Some "meeting.mp3") None
             download_ok None)
  ∧ ∃ before after path,
      trace (process_meeting_audio openai_ok os_ok (Some "meeting.mp3") None
               download_ok None)
      = before
        ++ ChatCompletion "gpt-4"
             [("system", system_message); ("user", user_prompt "hello team")]
             2000 "0.7"
           :: after
      ∧ Transcribe "whisper-1" path "text" ∈ before.
Proof.
  assert (ChatCompletion "gpt-4"
            [("system", system_message); ("user", user_prompt "hello team")]
            2000 "0.7"
          ∈ trace (process_meeting_audio openai_ok os_ok (Some "meeting.mp3") None
                     download_ok None)) as H.
  { vm_compute. do 10 apply list_elem_of_further. apply list_elem_of_here. }
  split; [exact H|].
  destruct (completion_only_after_transcription openai_ok download_ok os_ok
              (Some "meeting.mp3") None None _ _ _ _ H)
    as (before & after & Htrace & path & transcription & Hbefore & _).
  exists before, after, path. split; [exact Htrace|exact Hbefore].
Defined.

End PipelineBehaviourRuns.

(** ** Further properties of the OAuth operations *)

Section OAuthBehaviour.
Import GoogleDriveService.
Variable w : World.

Ltac unfold_oauth :=
  unfold handle_oauth_callback, start_oauth_flow, reset_oauth,
    check_initial_auth_status, get_service, build_service, load_if_exists,
    load_token, dump_token, secrets_token_urlsafe, os_path_exists,
    get_oauth_states, set_oauth_states, set_token_file, call, log, try_except,
    creds_valid;
  unfold mbind, M_bind, mret, M_ret; simpl.

(** X9. A callback with a pending state and a code the provider accepts:
    the success page is returned, the credentials obtained are the new
    content of the token file, exactly that state stops being pending, and
    the outside calls are the client-secrets read, the code exchange and the
    token write, in this order. *)
Theorem callback_success_persists_and_consumes (s : State) (request : Request)
    c st creds content :
  truthy (error request) = None →
  truthy (code request) = Some c →
  truthy (state request) = Some st →
  is_Some (oauth_states s !! st) →
  from_client_secrets_file w = Ok () →
  fetch_token w c = Ok creds →
  open_wb w = Ok () →
  pickle_dump w creds = Ok content →
  run (handle_oauth_callback w request) s
  = (Ok Authorized,
     {| token_file := Some content;
        oauth_states := delete st (oauth_states s);
        draws := draws s;
        calls := calls s ++ [FromClientSecretsFile; FetchToken c; WriteToken creds] |}).
Proof.
  intros Herror Hcode Hstate [b Hpending] Hflow Hfetch Hopen Hdump.
  unfold_oauth. rewrite Herror, Hcode, Hstate; simpl.
  rewrite bool_decide_eq_false_2 by congruence.
  rewrite Hflow; simpl. rewrite Hfetch; simpl. rewrite Hopen; simpl.
  rewrite Hdump; simpl. by rewrite <- !app_assoc.
Qed.

(** X10. A code exchange that fails leaves the authorization where it was: the
    error page carries the provider's message, the token file is not
    touched and the state stays pending, so the same callback can be
    retried. *)
Theorem exchange_failure_keeps_state_pending (s : State) (request : Request)
    c st msg :
  truthy (error request) = None →
  truthy (code request) = Some c →
  truthy (state request) = Some st →
  is_Some (oauth_states s !! st) →
  from_client_secrets_file w = Ok () →
  fetch_token w c = Raise msg →
  (run (handle_oauth_callback w request) s).1 = Ok (ExchangeFailed msg)
  ∧ token_file (run (handle_oauth_callback w request) s).2 = token_file s
  ∧ oauth_states (run (handle_oauth_callback w request) s).2 = oauth_states s.
Proof.
  intros Herror Hcode Hstate [b Hpending] Hflow Hfetch.
  unfold_oauth. rewrite Herror, Hcode, Hstate; simpl.
  rewrite bool_decide_eq_false_2 by congruence.
  rewrite Hflow; simpl. by rewrite Hfetch.
Qed.

(** X11. Starting an authorization when the status check says not authorized
    and every collaborator answers: the next random token is drawn and
    becomes pending beside the states that were pending before, the token
    file is left alone, and the last outside call opens the browser on the
    authorization URL built for that token. *)
Theorem start_registers_fresh_state (s : State) id secret url :
  truthy (GOOGLE_CLIENT_ID w) = Some id →
  truthy (GOOGLE_CLIENT_SECRET w) = Some secret →
  (run (check_initial_auth_status w) s).1 = Ok Unauthorized →
  from_client_secrets_file w = Ok () →
  authorization_url w (token_urlsafe w (draws s)) = Ok url →
  webbrowser_open w url = Ok () →
  oauth_states (run (start_oauth_flow w) s).2
  = <[token_urlsafe w (draws s) := true]> (oauth_states s)
  ∧ draws (run (start_oauth_flow w) s).2 = S (draws s)
  ∧ token_file (run (start_oauth_flow w) s).2 = token_file s
  ∧ last (calls (run (start_oauth_flow w) s).2) = Some (WebbrowserOpen url)
  ∧ ∃ status,
      (run (start_oauth_flow w) s).1 = Ok status
      ∧ status ≠ AlreadyAuthorized ∧ status ≠ ConfigurationError.
Proof.
  intros Hid Hsecret Hstatus Hflow Hurl Hopen. revert Hstatus Hurl.
  destruct s as [[content|] states n cs]; unfold_oauth;
    rewrite Hid, Hsecret; simpl.
  - destruct (open_rb w); simpl; [|intros; simplify_eq].
    destruct (pickle_load w content) as [[creds|]|]; simpl;
      [destruct (valid creds); simpl| |]; intros; simplify_eq;
      rewrite Hflow; simpl; rewrite Hurl; simpl; rewrite Hopen; simpl;
      rewrite last_snoc; repeat split; eauto.
  - intros _ Hurl. rewrite Hflow; simpl. rewrite Hurl; simpl. rewrite Hopen; simpl.
    rewrite last_snoc. repeat split; eauto.
Qed.

(** X12. A whole authorization. From a state the status check calls not
    authorized, [start_oauth_flow] followed by the callback carrying the
    token just drawn and a code the provider accepts ends authorized,
    provided the token written can be read back as valid credentials: the
    callback answers with the success page, the status check then says
    authorized, the pending states are the earlier ones without that token,
    and the same callback sent again is a state mismatch. *)
Theorem authorization_round_trip (s : State) id secret url c creds content :
  truthy (GOOGLE_CLIENT_ID w) = Some id →
  truthy (GOOGLE_CLIENT_SECRET w) = Some secret →
  (run (check_initial_auth_status w) s).1 = Ok Unauthorized →
  from_client_secrets_file w = Ok () →
  authorization_url w (token_urlsafe w (draws s)) = Ok url →
  webbrowser_open w url = Ok () →
  token_urlsafe w (draws s) ≠ EmptyString →
  c ≠ EmptyString →
  fetch_token w c = Ok creds →
  open_wb w = Ok () →
  pickle_dump w creds = Ok content →
  open_rb w = Ok () →
  pickle_load w content = Ok (Some creds) →
  valid creds = true →
  let st := token_urlsafe w (draws s) in
  let request := {| code := Some c; state := Some st; error := None |} in
  let s1 := (run (start_oauth_flow w) s).2 in
  let s2 := (run (handle_oauth_callback w request) s1).2 in
  (run (handle_oauth_callback w request) s1).1 = Ok Authorized
  ∧ (run (check_initial_auth_status w) s2).1 = Ok AlreadyAuthorized
  ∧ token_file s2 = Some content
  ∧ oauth_states s2 = delete st (oauth_states s)
  ∧ (run (handle_oauth_callback w request) s2).1 = Ok StateMismatch.
Proof.
  intros Hid Hsecret Hstatus Hflow Hurl Hopen Hst Hc Hfetch Hwb Hdump Hrb
    Hload Hvalid.
  revert Hstatus Hurl Hst.
  destruct s as [file states n cs]; cbn [draws]. intros Hstatus Hurl Hst.
  assert (run (start_oauth_flow w) {| token_file := file; oauth_states := states;
                                      draws := n; calls := cs |}
          = ((run (start_oauth_flow w) {| token_file := file; oauth_states := states;
                                          draws := n; calls := cs |}).1,
            {| token_file := file;
               oauth_states := <[token_urlsafe w n := true]> states;
               draws := S n;
               calls := calls (run (start_oauth_flow w)
                                 {| token_file := file; oauth_states := states;
                                    draws := n; calls := cs |}).2 |})) as ->.
  { revert Hstatus. unfold_oauth. rewrite Hid, Hsecret, Hrb. simpl.
    destruct file as [old|]; simpl.
    - destruct (pickle_load w old) as [[creds'|]|]; simpl;
        [destruct (valid creds'); simpl| |]; intros; simplify_eq;
        rewrite Hflow; simpl; rewrite Hurl; simpl; by rewrite Hopen.
    - intros _. rewrite Hflow; simpl. rewrite Hurl; simpl. by rewrite Hopen. }
  cbv zeta. cbn [snd]. unfold handle_oauth_callback. cbn [code state error].
  rewrite !truthy_nonempty by done. unfold_oauth.
  rewrite lookup_insert_eq. simpl.
  rewrite Hflow; simpl. rewrite Hfetch; simpl. rewrite Hwb; simpl.
  rewrite Hdump; simpl. rewrite Hrb, Hload; simpl. rewrite Hvalid.
  rewrite lookup_delete_eq. simpl.
  by rewrite delete_insert_eq.
Qed.

(** X13. Expired credentials with a refresh token are refreshed: the refreshed
    credentials replace the content of the token file and the Drive client
    is built from them. The outside calls are the token read, the refresh,
    the token write and the build, in this order. *)
Theorem get_service_refreshes_expired_token (s : State) content creds rt
    refreshed content' service :
  token_file s = Some content →
  open_rb w = Ok () →
  pickle_load w content = Ok (Some creds) →
  valid creds = false →
  expired creds = true →
  truthy (refresh_token creds) = Some rt →
  refresh w creds = Ok refreshed →
  open_wb w = Ok () →
  pickle_dump w refreshed = Ok content' →
  build w refreshed = Ok service →
  run (get_service w) s
  = (Ok (Some service, None),
     {| token_file := Some content';
        oauth_states := oauth_states s;
        draws := draws s;
        calls := calls s ++ [ReadToken; Refresh creds; WriteToken refreshed;
                             Build refreshed] |}).
Proof.
  intros Hfile Hrb Hload Hvalid Hexpired Hrt Hrefresh Hwb Hdump Hbuild.
  destruct s as [file states n cs]. simpl in Hfile. subst file.
  unfold_oauth. rewrite Hrb, Hload; simpl.
  rewrite Hvalid, Hexpired, Hrt; simpl. rewrite Hrefresh; simpl.
  rewrite Hwb; simpl. rewrite Hdump; simpl. rewrite Hbuild; simpl.
  by rewrite <- !app_assoc.
Qed.

(** X14. When the refresh is refused, no client is returned, the message
    carries the reason, and the token file keeps the old credentials:
    nothing is written and nothing is built. *)
Theorem get_service_refresh_failure_keeps_token (s : State) content creds rt msg :
  token_file s = Some content →
  open_rb w = Ok () →
  pickle_load w content = Ok (Some creds) →
  valid creds = false →
  expired creds = true →
  truthy (refresh_token creds) = Some rt →
  refresh w creds = Raise msg →
  run (get_service w) s
  = (Ok (None, Some ("Error refreshing credentials: " +:+ msg)),
     {| token_file := Some content;
        oauth_states := oauth_states s;
        draws := draws s;
        calls := calls s ++ [ReadToken; Refresh creds] |}).
Proof.
  intros Hfile Hrb Hload Hvalid Hexpired Hrt Hrefresh.
  destruct s as [file states n cs]. simpl in Hfile. subst file.
  unfold_oauth. rewrite Hrb, Hload; simpl.
  rewrite Hvalid, Hexpired, Hrt; simpl. rewrite Hrefresh; simpl.
  by rewrite <- !app_assoc.
Qed.

(** X15. Without usable credentials (no token file, an empty pickle, or
    credentials that are invalid and cannot be refreshed because they are
    not expired or carry no refresh token) the answer is the request to
    authorize first; nothing is refreshed, written or built. *)
Theorem get_service_asks_to_authorize (s : State) :
  (token_file s = None
   ∨ ∃ content,
       token_file s = Some content
       ∧ open_rb w = Ok ()
       ∧ (pickle_load w content = Ok None
          ∨ ∃ creds,
              pickle_load w content = Ok (Some creds)
              ∧ valid creds = false
              ∧ (expired creds = false ∨ truthy (refresh_token creds) = None))) →
  (run (get_service w) s).1
  = Ok (None, Some "Please authorize Google Drive access first")
  ∧ token_file (run (get_service w) s).2 = token_file s
  ∧ ∀ c, c ∈ calls (run (get_service w) s).2 → c ∈ calls s ∨ c = ReadToken.
Proof.
  destruct s as [file states n cs]. simpl.
  intros [->|(content & -> & Hrb & Hload)]; unfold_oauth.
  { repeat split; auto. }
  rewrite Hrb.
  destruct Hload as [->|(creds & -> & Hvalid & Hno)]; simpl.
  { repeat split; auto. intros c [?|?%list_elem_of_singleton]%elem_of_app; auto. }
  rewrite Hvalid. destruct Hno as [->| ->]; simpl;
    rewrite ?andb_false_r; simpl;
    (repeat split; auto;
     intros c [?|?%list_elem_of_singleton]%elem_of_app; auto).
Qed.

(** X16. Checking the status only reads: it always answers with a status line
    and leaves the token file, the pending states and the random draws as
    they were. *)
Theorem check_initial_auth_status_only_reads (s : State) :
  (∃ status, (run (check_initial_auth_status w) s).1 = Ok status)
  ∧ token_file (run (check_initial_auth_status w) s).2 = token_file s
  ∧ oauth_states (run (check_initial_auth_status w) s).2 = oauth_states s
  ∧ draws (run (check_initial_auth_status w) s).2 = draws s.
Proof.
  destruct s as [[content|] states n cs]; unfold_oauth; [|by eauto].
  destruct (open_rb w); simpl; [|by eauto].
  destruct (pickle_load w content) as [[creds|]|]; simpl; [|by eauto..].
  destruct (valid creds); simpl; by eauto.
Qed.

(** X17. A reset that goes through ends every authorization in flight: with no
    token file to remove, or with one the file system lets go, a callback
    that arrives afterwards with a code and a state is a state mismatch and
    changes nothing, whatever was pending before. *)
Theorem reset_invalidates_pending_callbacks (s : State) (request : Request) c st :
  token_file s = None ∨ os_remove w = Ok () →
  truthy (error request) = None →
  truthy (code request) = Some c →
  truthy (state request) = Some st →
  (run (reset_oauth w) s).1 = Ok ResetDone
  ∧ run (handle_oauth_callback w request) (run (reset_oauth w) s).2
    = (Ok StateMismatch, (run (reset_oauth w) s).2).
Proof.
  intros Hreset Herror Hcode Hstate.
  destruct s as [file states n cs]. simpl in Hreset.
  assert (∃ cs', run (reset_oauth w)
                   {| token_file := file; oauth_states := states;
                      draws := n; calls := cs |}
                 = (Ok ResetDone,
                    {| token_file := None; oauth_states := ∅;
                       draws := n; calls := cs' |})) as [cs' ->].
  { unfold_oauth. destruct file as [content|]; simpl; [|by eauto].
    destruct Hreset as [?| ->]; [done|]. simpl. by eauto. }
  split; [done|]. unfold_oauth. rewrite Herror, Hcode, Hstate. simpl.
  by rewrite lookup_empty.
Qed.

End OAuthBehaviour.

(** ** The further OAuth properties on concrete states *)

Section OAuthBehaviourRuns.
Import GoogleDriveService Examples.

Lemma callback_success_persists_and_consumes_witness :
  is_Some (oauth_states state_pending !! "state-0")
  ∧ run (handle_oauth_callback world_ok request_granted) state_pending
    = (Ok Authorized,
       {| token_file := Some [Byte.x80; Byte.x04];
          oauth_states := delete "state-0" (oauth_states state_pending);
          draws := 1;
          calls := [FromClientSecretsFile; FetchToken "4/0AbC";
                    WriteToken fresh_creds] |}).
Proof.
  assert (is_Some (oauth_states state_pending !! "state-0")) as H
    by (eexists; apply lookup_insert_eq).
  split; [exact H|].
  exact (callback_success_persists_and_consumes world_ok state_pending
           request_granted "4/0AbC" "state-0" fresh_creds [Byte.x80; Byte.x04]
           eq_refl eq_refl eq_refl H eq_refl eq_refl eq_refl eq_refl).
Defined.

Lemma exchange_failure_keeps_state_pending_witness :
  (run (handle_oauth_callback world_exchange_down request_granted) state_pending).1
  = Ok (ExchangeFailed "(invalid_grant) Bad Request")
  ∧ oauth_states
      (run (handle_oauth_callback world_exchange_down request_granted)
         state_pending).2
    = oauth_states state_pending.
Proof.
  assert (is_Some (oauth_states state_pending !! "state-0")) as H
    by (eexists; apply lookup_insert_eq).
  destruct (exchange_failure_keeps_state_pending world_exchange_down state_pending
              request_granted "4/0AbC" "state-0" "(invalid_grant) Bad Request"
              eq_refl eq_refl eq_refl H eq_refl eq_refl) as (Hpage & _ & Hstates).
  split; [exact Hpage|exact Hstates].
Defined.

Lemma start_registers_fresh_state_witness :
  (run (check_initial_auth_status world_ok) state_initial).1 = Ok Unauthorized
  ∧ oauth_states (run (start_oauth_flow world_ok) state_initial).2
    = <["state-0" := true]> ∅
  ∧ draws (run (start_oauth_flow world_ok) state_initial).2 = 1.
Proof.
  split; [reflexivity|].
  destruct (start_registers_fresh_state world_ok state_initial
              "client-id.apps.googleusercontent.com" "client-secret"
              "https://accounts.google.com/o/oauth2/auth?state=state-0"
              eq_refl eq_refl eq_refl eq_refl eq_refl eq_refl)
    as (Hstates & Hdraws & _).
  split; [exact Hstates|exact Hdraws].
Defined.

Lemma authorization_round_trip_witness :
  (run (check_initial_auth_status world_ok) state_initial).1 = Ok Unauthorized
  ∧ (run (check_initial_auth_status world_ok)
       (run (handle_oauth_callback world_ok request_granted)
          (run (start_oauth_flow world_ok) state_initial).2).2).1
    = Ok AlreadyAuthorized.
Proof.
  split; [reflexivity|].
  assert ("state-0" ≠ EmptyString) as H1 by discriminate.
  assert ("4/0AbC" ≠ EmptyString) as H2 by discriminate.
  destruct (authorization_round_trip world_ok state_initial
              "client-id.apps.googleusercontent.com" "client-secret"
              "https://accounts.google.com/o/oauth2/auth?state=state-0"
              "4/0AbC" fresh_creds [Byte.x80; Byte.x04]
              eq_refl eq_refl eq_refl eq_refl eq_refl eq_refl H1 H2
              eq_refl eq_refl eq_refl eq_refl eq_refl eq_refl)
    as (_ & Hstatus & _).
  exact Hstatus.
Defined.

Lemma get_service_refreshes_expired_token_witness :
  run (get_service world_expired) state_authorized
  = (Ok (Some empty_drive, None),
     {| token_file := Some [Byte.x80; Byte.x04];
        oauth_states := oauth_states state_authorized;
        draws := 1;
        calls := [ReadToken; Refresh expired_creds; WriteToken fresh_creds;
                  Build fresh_creds] |}).
Proof.
  exact (get_service_refreshes_expired_token world_expired state_authorized
           [Byte.x80; Byte.x04] expired_creds "1//0g" fresh_creds
           [Byte.x80; Byte.x04] empty_drive
           eq_refl eq_refl eq_refl eq_refl eq_refl eq_refl eq_refl eq_refl
           eq_refl eq_refl).
Defined.

Lemma get_service_refresh_failure_keeps_token_witness :
  (run (get_service world_revoked) state_authorized).1
  = Ok (None, Some "Error refreshing credentials: invalid_grant: Token has been expired or revoked.").
Proof.
  rewrite (get_service_refresh_failure_keeps_token world_revoked state_authorized
             [Byte.x80; Byte.x04] expired_creds "1//0g"
             "invalid_grant: Token has been expired or revoked."
             eq_refl eq_refl eq_refl eq_refl eq_refl eq_refl eq_refl).
  reflexivity.
Defined.

Lemma get_service_asks_to_authorize_witness :
  token_file state_initial = None
  ∧ (run (get_service world_ok) state_initial).1
    = Ok (None, Some "Please authorize Google Drive access first").
Proof.
  split; [reflexivity|].
  apply (get_service_asks_to_authorize world_ok state_initial).
  left. reflexivity.
Defined.

Lemma reset_invalidates_pending_callbacks_witness :
  is_Some (oauth_states state_pending !! "state-0")
  ∧ (run (handle_oauth_callback world_ok request_granted)
       (run (reset_oauth world_ok) state_pending).2).1
    = Ok StateMismatch.
Proof.
  split; [eexists; apply lookup_insert_eq|].
  destruct (reset_invalidates_pending_callbacks world_ok state_pending
              request_granted "4/0AbC" "state-0"
              (or_introl eq_refl) eq_refl eq_refl eq_refl) as [_ H].
  rewrite H. reflexivity.
Defined.

End OAuthBehaviourRuns.

(** ** Further properties of the Drive browser *)

Section BrowseBehaviour.
Import GoogleDriveService.
Variable service : Service.

Lemma get_file_path_loop_more_fuel fuel extra i path_parts r :
  get_file_path_loop fuel service i path_parts = Some r →
  get_file_path_loop (fuel + extra) service i path_parts = Some r.
Proof.
  revert i path_parts. induction fuel as [|fuel IH]; intros i path_parts; [done|].
  simpl. destruct (files_get_parents service i) as [[|p rest]|]; try done.
  destruct (String.eqb p "0"); [done|].
  destruct (files_get_name service p); [|done]. apply IH.
Qed.

(** X18. The fuel only bounds the walk: once the walk has ended within
    some fuel and given a path, more fuel gives the same path. *)
Theorem get_file_path_fuel_independent fuel extra file_id file_name path :
  get_file_path fuel service file_id file_name = Some path →
  get_file_path (fuel + extra) service file_id file_name = Some path.
Proof.
  unfold get_file_path.
  destruct (get_file_path_loop fuel service file_id [file_name]) as [r|] eqn:H;
    [|done].
  by rewrite (get_file_path_loop_more_fuel _ extra _ _ _ H).
Qed.

Lemma string_app_assoc (s1 s2 s3 : string) :
  (s1 +:+ s2) +:+ s3 = s1 +:+ s2 +:+ s3.
Proof.
  induction s1 as [|a s1 IH]; [done|].
  change (String a ((s1 +:+ s2) +:+ s3) = String a (s1 +:+ s2 +:+ s3)).
  by rewrite IH.
Qed.

Lemma join_snoc sep parts last_part :
  join sep (parts ++ [last_part])
  = match parts with
    | [] => last_part
    | _ => join sep parts +:+ sep +:+ last_part
    end.
Proof.
  induction parts as [|p [|q parts] IH]; simpl in *; try done.
  rewrite IH. by rewrite !string_app_assoc.
Qed.

Lemma get_file_path_loop_keeps_suffix fuel i path_parts parts :
  get_file_path_loop fuel service i path_parts = Some (Ok parts) →
  ∃ folders, parts = folders ++ path_parts.
Proof.
  revert i path_parts. induction fuel as [|fuel IH]; intros i path_parts; [done|].
  simpl. destruct (files_get_parents service i) as [[|p rest]|]; try done.
  { intros [= <-]. by exists []. }
  destruct (String.eqb p "0"). { intros [= <-]. by exists []. }
  destruct (files_get_name service p) as [parent_name|]; [|done].
  intros (folders & ->)%IH.
  exists (folders ++ [default "Unknown" parent_name]). by rewrite <- app_assoc.
Qed.

(** X19. The path shown for a file is the file name, or folder names followed
    by [" / "] and the file name; for a file without parents, or directly
    under the root, it is the file name alone. *)
Theorem get_file_path_ends_with_name fuel file_id file_name path :
  get_file_path fuel service file_id file_name = Some path →
  (path = file_name ∨ ∃ folders, path = folders +:+ " / " +:+ file_name)
  ∧ (files_get_parents service file_id = Ok []
     ∨ (∃ rest, files_get_parents service file_id = Ok ("0" :: rest)) →
     path = file_name).
Proof.
  unfold get_file_path. intros H. split.
  - destruct (get_file_path_loop fuel service file_id [file_name])
      as [[parts|msg]|] eqn:Hloop; simplify_eq; [|by left].
    apply get_file_path_loop_keeps_suffix in Hloop as [folders ->].
    rewrite join_snoc. destruct folders; [by left|right; eauto].
  - destruct fuel as [|fuel]; [done|]. simpl in H.
    intros [Hroot|[rest Hroot]]; rewrite Hroot in H; simpl in H; by simplify_eq.
Qed.

Lemma file_options_of_entries fuel files file_options label i :
  file_options_of fuel service files = Some file_options →
  (label, i) ∈ file_options →
  ∃ file file_path,
    file ∈ files
    ∧ i = id file
    ∧ get_file_path fuel service (id file) (name file) = Some file_path
    ∧ label = "🎵 " +:+ name file +:+ " - " +:+ file_path.
Proof.
  revert file_options. induction files as [|file files IH]; intros file_options; simpl.
  { intros [= <-] H. by apply elem_of_nil in H. }
  destruct (get_file_path fuel service (id file) (name file)) as [file_path|] eqn:Hpath;
    simpl; [|done].
  destruct (file_options_of fuel service files) as [rest|]; simpl; [|done].
  intros [= <-] [H|H]%elem_of_cons.
  - injection H as -> ->. exists file, file_path.
    split; [by left|]. by repeat split.
  - destruct (IH rest eq_refl H) as (f & p & Hf & ? & ? & ?).
    exists f, p. split; [by right|]. by repeat split.
Qed.

(** X20. Every entry offered for selection is a file that one of the eight
    audio queries returned: its value is that file's identifier and its
    label is the file's name followed by its path. *)
Theorem browse_entries_come_from_audio_queries fuel file_options status label i :
  browse_with fuel service = Some (file_options, status) →
  (label, i) ∈ file_options →
  ∃ query files file file_path,
    query ∈ audio_queries
    ∧ files_list service query 20
        "files(id, name, mimeType, webViewLink, parents)" = Ok files
    ∧ file ∈ files
    ∧ i = id file
    ∧ get_file_path fuel service (id file) (name file) = Some file_path
    ∧ label = "🎵 " +:+ name file +:+ " - " +:+ file_path.
Proof.
  unfold browse_with. intros Hbrowse Hin.
  destruct (files_list service "trashed=false" 5 _) as [[|file0 all_files]|msg];
    [by simplify_eq; apply elem_of_nil in Hin| |
     by simplify_eq; apply elem_of_nil in Hin].
  destruct (collect_audio_files_spec service audio_queries ([], ∅))
    as (_ & _ & Hfrom & _).
  { split; simpl; [constructor|]. intros j. set_solver. }
  destruct (collect_audio_files service audio_queries ([], ∅))
    as [found seen_ids]; simpl in *.
  destruct found as [|file1 rest].
  { simplify_eq. by apply elem_of_nil in Hin. }
  set (files := file1 :: rest) in *.
  destruct (file_options_of fuel service (take 20 files)) as [opts|] eqn:Hopts;
    simpl in Hbrowse; [|done].
  injection Hbrowse as <- _.
  destruct (file_options_of_entries _ _ _ _ _ Hopts Hin)
    as (file & file_path & Hfile & Hid & Hpath & Hlabel).
  apply elem_of_take in Hfile as (k & Hfile & _).
  apply list_elem_of_lookup_2 in Hfile.
  destruct (Hfrom file Hfile) as [H|(query & answer & Hq & Hlist & Hf)].
  { by apply elem_of_nil in H. }
  exists query, answer, file, file_path. by repeat split.
Qed.

End BrowseBehaviour.

Section BrowseAccess.
Import GoogleDriveService.
Variable w : World.

(** X23. Browsing before any authorization lists nothing and says so: with no
    token file the answer is the request to authorize, and nothing outside
    the service is called or changed. *)
Theorem browse_before_authorizing (s : State) fuel :
  token_file s = None →
  run (browse_google_drive w fuel) s
  = (Ok (Some ([], "❌ Please authorize Google Drive access first")), s).
Proof.
  destruct s as [file states n cs]. simpl. intros ->. reflexivity.
Qed.

(** X24. When the Drive client is there and the first listing request fails,
    nothing is listed and the message carries the reason; no audio query
    result is shown. *)
Theorem browse_reports_unreachable_drive (s : State) service err fuel msg :
  (run (get_service w) s).1 = Ok (Some service, err) →
  files_list service "trashed=false" 5 "files(id, name, mimeType)" = Raise msg →
  (run (browse_google_drive w fuel) s).1
  = Ok (Some ([], "❌ Cannot access Google Drive files: " +:+ msg)).
Proof.
  intros Hservice Hprobe.
  unfold browse_google_drive, try_except, mbind, M_bind. cbn [run].
  destruct (run (get_service w) s) as [[[service' err']|e] s'];
    simpl in *; simplify_eq. unfold browse_with. by rewrite Hprobe.
Qed.

End BrowseAccess.

(** ** The further browser properties on concrete Drives *)

Section BrowseBehaviourRuns.
Import GoogleDriveService Examples.

Lemma get_file_path_fuel_independent_witness :
  get_file_path 2 drive_with_recording "1a" "standup.mp3"
  = Some "Meetings / standup.mp3"
  ∧ get_file_path (2 + 5) drive_with_recording "1a" "standup.mp3"
    = Some "Meetings / standup.mp3".
Proof.
  split; [reflexivity|].
  apply (get_file_path_fuel_independent drive_with_recording 2 5 "1a"
           "standup.mp3" "Meetings / standup.mp3").
  reflexivity.
Defined.

Lemma get_file_path_ends_with_name_witness :
  get_file_path 2 drive_with_recording "1a" "standup.mp3"
  = Some "Meetings / standup.mp3"
  ∧ ("Meetings / standup.mp3" = "standup.mp3"
     ∨ ∃ folders, "Meetings / standup.mp3" = folders +:+ " / " +:+ "standup.mp3").
Proof.
  split; [reflexivity|].
  apply (get_file_path_ends_with_name drive_with_recording 2 "1a" "standup.mp3"
           "Meetings / standup.mp3").
  reflexivity.
Defined.

Lemma browse_entries_come_from_audio_queries_witness :
  browse_with 2 drive_with_recording
  = Some ([("🎵 standup.mp3 - Meetings / standup.mp3", "1a")],
          "✅ Found 1 audio files in your Google Drive.")
  ∧ ∃ query files file,
      query ∈ audio_queries
      ∧ files_list drive_with_recording query 20
          "files(id, name, mimeType, webViewLink, parents)" = Ok files
      ∧ file ∈ files
      ∧ "1a" = id file.
Proof.
  split; [reflexivity|].
  destruct (browse_entries_come_from_audio_queries drive_with_recording 2
              [("🎵 standup.mp3 - Meetings / standup.mp3", "1a")]
              "✅ Found 1 audio files in your Google Drive."
              "🎵 standup.mp3 - Meetings / standup.mp3" "1a" eq_refl)
    as (query & files & file & _ & Hq & Hlist & Hfile & Hid & _).
  { apply list_elem_of_here. }
  exists query, files, file. split; [exact Hq|]. split; [exact Hlist|].
  split; [exact Hfile|exact Hid].
Defined.

Lemma browse_before_authorizing_witness :
  token_file state_initial = None
  ∧ (run (browse_google_drive world_ok 2) state_initial).1
    = Ok (Some ([], "❌ Please authorize Google Drive access first")).
Proof.
  split; [reflexivity|].
  rewrite (browse_before_authorizing world_ok state_initial 2 eq_refl).
  reflexivity.
Defined.

Lemma browse_reports_unreachable_drive_witness :
  (run (get_service world_unreachable) state_authorized).1
  = Ok (Some drive_unreachable, None)
  ∧ (run (browse_google_drive world_unreachable 2) state_authorized).1
    = Ok (Some ([], "❌ Cannot access Google Drive files: HttpError 503")).
Proof.
  split; [reflexivity|].
  apply (browse_reports_unreachable_drive world_unreachable state_authorized
           drive_unreachable None 2 "HttpError 503"); reflexivity.
Defined.

End BrowseBehaviourRuns.

(** ** Configuration and the interface wrappers *)

Section StartupAndInterface.
Import AudioProcessor GoogleDriveService UIComponents.

Ltac unfold_service_calls :=
  unfold _check_initial_browse_visibility, handle_oauth_callback,
    start_oauth_flow, reset_oauth, check_initial_auth_status, get_service,
    build_service, load_if_exists, load_token, dump_token,
    secrets_token_urlsafe, os_path_exists, get_oauth_states, set_oauth_states,
    set_token_file, call, log, try_except, creds_valid;
  unfold mbind, M_bind, mret, M_ret; simpl.


(** X26. The browse button is shown on load exactly when the status check
    reports an existing authorization. The visibility check itself never
    fails and only reads. *)
Theorem browse_button_follows_status (w : World) (s : State) :
  ((run (_check_initial_browse_visibility w) s).1 = Ok true
   ↔ (run (check_initial_auth_status w) s).1 = Ok AlreadyAuthorized)
  ∧ (∃ visible, (run (_check_initial_browse_visibility w) s).1 = Ok visible)
  ∧ token_file (run (_check_initial_browse_visibility w) s).2 = token_file s
  ∧ oauth_states (run (_check_initial_browse_visibility w) s).2 = oauth_states s.
Proof.
  destruct s as [[content|] states n cs]; unfold_service_calls.
  - destruct (open_rb w); simpl.
    + destruct (pickle_load w content) as [[creds|]|]; simpl;
        [destruct (valid creds); simpl| |];
        (split; [split; intros H; by try discriminate H|by eauto]).
    + split; [split; intros H; by try discriminate H|by eauto].
  - split; [split; intros H; by try discriminate H|by eauto].
Qed.












(** X28. A path is returned only for a file that was written: the service was
    obtained, an identifier was found in the input, the metadata request
    answered, the temporary file was created with the extension of the
    file name (or [.mp3] when it has none) and opened, and the content was
    fetched and written. The message then names the file. *)
Theorem download_returns_written_file (w : World) (d : Download) (s : State)
    file_input path message :
  (run (download_from_google_drive w d file_input) s).1
  = Ok (Some path, message) →
  ∃ service error file_id file_name content,
    (run (get_service w) s).1 = Ok (Some service, error)
    ∧ file_id_of d file_input = Ok (Some file_id)
    ∧ files_get d service file_id = Ok file_name
    ∧ NamedTemporaryFile d
        (match os_path_splitext d (default "downloaded_file" file_name) with
         | EmptyString => ".mp3"
         | extension => extension
         end) = Ok path
    ∧ open_temp d path = Ok ()
    ∧ files_get_media d service file_id = Ok content
    ∧ write_temp d path content = Ok ()
    ∧ message = Some ("File '" +:+ default "downloaded_file" file_name
                      +:+ "' downloaded successfully").
Proof.
  unfold download_from_google_drive, try_except, lift, mbind, M_bind, mret, M_ret.
  cbn [run].
  destruct (run (get_service w) s) as [[[[service|] error]|e] s']; cbn [fst snd];
    [|by intros [=]..].
  destruct (file_id_of d file_input) as [[file_id|]|e]; cbn [fst snd];
    [|by intros [=]..].
  destruct (files_get d service file_id) as [file_name|e] eqn:Hname; cbn [fst snd];
    [|by intros [=]].
  destruct (NamedTemporaryFile d _) as [temp_file|e] eqn:Htemp; cbn [run fst snd];
    [|by intros [=]].
  destruct (open_temp d temp_file) as [[]|e] eqn:Hopen; cbn [run fst snd];
    [|by intros [=]].
  destruct (files_get_media d service file_id) as [content|e] eqn:Hmedia;
    cbn [run fst snd]; [|by intros [=]].
  destruct (write_temp d temp_file content) as [[]|e] eqn:Hwrite;
    cbn [run fst snd]; [|by intros [=]].
  intros [= <- <-]. by exists service, error, file_id, file_name, content.
Qed.


Lemma download_without_token (w : World) (d : Download) (s : State) file_input :
  token_file s = None →
  (run (download_from_google_drive w d file_input) s).1
  = Ok (None, Some "Please authorize Google Drive access first").
Proof. destruct s as [file states n cs]. simpl. by intros ->. Qed.

(** X30. Processing a Drive file before any authorization, as the interface
    does it: the download is refused for lack of a token, the run stops
    there, and what the interface shows in the end is the download error
    with empty minutes, whatever local file was also given. *)
Theorem unauthorized_download_ends_the_run (w : World) (d : Download)
    (openai_client : OpenAI) (os : Os) progress (s : State)
    audio_file gdrive_file_id file_id :
  token_file s = None →
  truthy gdrive_file_id = Some file_id →
  _process_meeting_audio_wrapper openai_client os
    (λ file_id, (run (download_from_google_drive w d file_id) s).1)
    progress audio_file gdrive_file_id
  = ("❌ Error downloading from Google Drive: Please authorize Google Drive access first",
     EmptyString).
Proof.
  intros Htoken Hid.
  unfold _process_meeting_audio_wrapper, process_meeting_audio.
  rewrite Hid. cbv beta match.
  rewrite (download_without_token w d s file_id Htoken).
  reflexivity.
Qed.

End StartupAndInterface.

(** ** Configuration and the interface wrappers on concrete inputs *)

Section StartupAndInterfaceRuns.
Import AudioProcessor GoogleDriveService UIComponents Examples.


Lemma download_returns_written_file_witness :
  (run (download_from_google_drive world_recording drive_download
          "https://drive.google.com/file/d/1a/view?usp=sharing")
       state_authorized).1
  = Ok (Some "/tmp/tmp8x2kq1.mp3",
        Some "File 'standup.mp3' downloaded successfully")
  ∧ ∃ service file_id,
      file_id_of drive_download
        "https://drive.google.com/file/d/1a/view?usp=sharing"
      = Ok (Some file_id)
      ∧ files_get drive_download service file_id = Ok (Some "standup.mp3").
Proof.
  split; [reflexivity|].
  destruct (download_returns_written_file world_recording drive_download
              state_authorized
              "https://drive.google.com/file/d/1a/view?usp=sharing"
              "/tmp/tmp8x2kq1.mp3"
              (Some "File 'standup.mp3' downloaded successfully") eq_refl)
    as (service & error & file_id & file_name & content & _ & Hid & Hname & _).
  exists service, file_id. split; [exact Hid|]. reflexivity.
Defined.

Lemma unauthorized_download_ends_the_run_witness :
  token_file state_initial = None
  ∧ truthy (Some "1a") = Some "1a"
  ∧ _process_meeting_audio_wrapper openai_ok os_ok
      (λ file_id,
         (run (download_from_google_drive world_ok drive_download file_id)
              state_initial).1)
      progress_ok (Some "meeting.mp3") (Some "1a")
    = ("❌ Error downloading from Google Drive: Please authorize Google Drive access first",
       EmptyString).
Proof.
  split; [reflexivity|]. split; [reflexivity|].
  apply (unauthorized_download_ends_the_run world_ok drive_download openai_ok
           os_ok progress_ok state_initial (Some "meeting.mp3") (Some "1a") "1a");
    reflexivity.
Defined.

End StartupAndInterfaceRuns.
